(** * Gauss-Jordan solver: a shallow embedding of [src/gauss_jordan.hpp]

    The header defines a dense [Matrix] class, the solver [Solve] and the
    residual metric [ErrorEstimate], all over the floating-point type [Real].

    Modelling choices.
    - [Real] is an IEEE-754 binary format given by its precision and maximal
      exponent ([RealFormat]); the header selects [std::float128_t] or
      [long double] at compile time.  Arithmetic is the round-to-nearest-even
      arithmetic of [SpecFloat]; NaN carries no payload.
    - [uint8_t] dimensions and [uint16_t] counters are natural numbers: every
      counter of the header is bounded by a dimension plus one, so none wraps.
    - [std::vector::operator[]] is unchecked.  An index out of range is
      undefined behaviour in C++; here it makes the computation stop with
      [Fault].  [Matrix::operator()] checks its bounds itself.
    - [return] inside loops is modelled by the [Return] constructor of [exec];
      [while (1)] takes fuel. *)

From Stdlib Require Import ZArith Bool Lia.
From Stdlib Require Import Floats.SpecFloat.
From stdpp Require Import base list.

Set Default Proof Using "Type".

(** ** Real numbers of the header *)

Class RealFormat := { prec : Z; emax : Z }.

(** [std::float128_t]: IEEE binary128. *)
Definition float128_t : RealFormat := {| prec := 113; emax := 16384 |}.

(** [long double] on x86: 64 bits of mantissa, 15 bits of exponent. *)
Definition long_double : RealFormat := {| prec := 64; emax := 16384 |}.

Definition Real : Type := spec_float.

Definition NaN : Real := S754_nan.

Definition isfinite (x : Real) : bool :=
  match x with
  | S754_zero _ | S754_finite _ _ _ => true
  | S754_infinity _ | S754_nan => false
  end.

Definition Rabs (x : Real) : Real := SFabs x.
Definition Rlt (x y : Real) : bool := SFltb x y.
Definition Rle (x y : Real) : bool := SFleb x y.
(** [x >= y] of C++: false as soon as one side is NaN. *)
Definition Rge (x y : Real) : bool := SFleb y x.

Section RealOps.
Context {F : RealFormat}.

(** Conversion of an integer literal. *)
Definition Real_of_Z (z : Z) : Real := binary_normalize prec emax z 0 false.

Definition Radd (x y : Real) : Real := SFadd prec emax x y.
Definition Rsub (x y : Real) : Real := SFsub prec emax x y.
Definition Rmul (x y : Real) : Real := SFmul prec emax x y.
Definition Rdiv (x y : Real) : Real := SFdiv prec emax x y.

(** [std::numeric_limits<float>::epsilon()], that is 2^-23. *)
Definition magnitude_zero : Real := binary_normalize prec emax 1 (-23) false.
End RealOps.

(** ** Control flow *)

(** The result of running a statement inside a function returning [R]. *)
Inductive exec (R A : Type) : Type :=
| Next (a : A)      (* control reaches the next statement *)
| Return (r : R)    (* a return statement was executed *)
| Fault             (* unchecked index out of range *)
| Exhausted.        (* the fuel of a while loop ran out *)
Arguments Next {R A} a.
Arguments Return {R A} r.
Arguments Fault {R A}.
Arguments Exhausted {R A}.

Definition bind {R A B} (e : exec R A) (k : A -> exec R B) : exec R B :=
  match e with
  | Next a => k a
  | Return r => Return r
  | Fault => Fault
  | Exhausted => Exhausted
  end.

Notation "'let*' x ':=' e 'in' k" := (bind e (fun x => k))
  (at level 10, x pattern, e at level 100, k at level 200).

(** The result of a whole function call. *)
Inductive outcome (R : Type) : Type :=
| Ok (r : R)
| Undefined
| OutOfFuel.
Arguments Ok {R} r.
Arguments Undefined {R}.
Arguments OutOfFuel {R}.

Definition run {R} (e : exec R R) : outcome R :=
  match e with
  | Next r | Return r => Ok r
  | Fault => Undefined
  | Exhausted => OutOfFuel
  end.

Definition call {R A} (o : outcome A) : exec R A :=
  match o with
  | Ok a => Next a
  | Undefined => Fault
  | OutOfFuel => Exhausted
  end.

(** [for (i = first; ...; ++i)] over the listed indices. *)
Fixpoint for_each {R S} (l : list nat) (body : nat -> S -> exec R S) (s : S)
  : exec R S :=
  match l with
  | [] => Next s
  | i :: l' => let* s' := body i s in for_each l' body s'
  end.

(** [for (uint16_t i{0}; i < n; ++i)] *)
Definition for_range {R S} (n : nat) (body : nat -> S -> exec R S) (s : S)
  : exec R S :=
  for_each (seq 0 n) body s.

(** [while (1)]: the body either continues with a new state ([inl]) or
    breaks ([inr]). *)
Fixpoint while_true {R S A} (fuel : nat) (body : S -> exec R (S + A)) (s : S)
  : exec R A :=
  match fuel with
  | O => Exhausted
  | S fuel' =>
      let* r := body s in
      match r with
      | inl s' => while_true fuel' body s'
      | inr a => Next a
      end
  end.

(** ** std::vector *)

(** [v[i]] as an rvalue. *)
Definition vget {R A} (v : list A) (i : nat) : exec R A :=
  match v !! i with
  | Some a => Next a
  | None => Fault
  end.

(** [v[i] = a] *)
Definition vset {R A} (v : list A) (i : nat) (a : A) : exec R (list A) :=
  if i <? length v then Next (<[i:=a]> v) else Fault.

(** ** Matrix *)

Record Matrix : Type := {
  n_rows : nat;
  n_columns : nat;
  cell : list (list Real);
  dummy : Real
}.

Definition with_cell (m : Matrix) (c : list (list Real)) : Matrix :=
  {| n_rows := n_rows m; n_columns := n_columns m; cell := c; dummy := dummy m |}.

Definition with_dummy (m : Matrix) (d : Real) : Matrix :=
  {| n_rows := n_rows m; n_columns := n_columns m; cell := cell m; dummy := d |}.

(** [Matrix()] *)
Definition Matrix_default : Matrix :=
  {| n_rows := 0; n_columns := 0; cell := []; dummy := NaN |}.

(** The class invariant every constructed matrix satisfies. *)
Definition Matrix_wf (m : Matrix) : Prop :=
  length (cell m) = n_rows m /\
  Forall (fun row => length row = n_columns m) (cell m).

(** The place an [operator()] reference points to. *)
Inductive cell_ref : Type :=
| ref_cell (row column : nat)
| ref_dummy.

Section Model.
Context {F : RealFormat}.

(** [Matrix(rows, columns)] *)
Definition Matrix_init (rows columns : nat) : Matrix :=
  if rows <? columns then Matrix_default
  else {| n_rows := rows; n_columns := columns;
          cell := replicate rows (replicate columns (Real_of_Z 0));
          dummy := NaN |}.

(** [Real& operator()(row, column)] *)
Definition Matrix_ref (m : Matrix) (row column : nat) : cell_ref :=
  if (n_rows m <=? row) || (n_columns m <=? column) then ref_dummy
  else ref_cell row column.

(** Reading through a reference obtained from [operator()]. *)
Definition load {R} (m : Matrix) (r : cell_ref) : exec R Real :=
  match r with
  | ref_dummy => Next (dummy m)
  | ref_cell row column =>
      let* line := vget (cell m) row in
      vget line column
  end.

(** Assigning through a reference obtained from [operator()]. *)
Definition store {R} (m : Matrix) (r : cell_ref) (v : Real) : exec R Matrix :=
  match r with
  | ref_dummy => Next (with_dummy m v)
  | ref_cell row column =>
      let* line := vget (cell m) row in
      let* line' := vset line column v in
      let* cell' := vset (cell m) row line' in
      Next (with_cell m cell')
  end.

(** [Real operator()(row, column) const] *)
Definition Matrix_get (m : Matrix) (row column : nat) : outcome Real :=
  run (if (n_rows m <=? row) || (n_columns m <=? column) then Return NaN
       else
         let* line := vget (cell m) row in
         let* x := vget line column in
         Return x).

Definition set_row (m : Matrix) (index : nat) (data : list Real)
  : outcome Matrix :=
  run (if (n_columns m =? 0) || negb (length data =? n_columns m)
       then Return m
       else
         let* _ := for_range (n_columns m)
                     (fun i (_ : unit) =>
                        let* x := vget data i in
                        if negb (isfinite x) then Return m else Next tt) tt in
         let* cell' := vset (cell m) index data in
         Next (with_cell m cell')).

Definition set_column (m : Matrix) (index : nat) (data : list Real)
  : outcome Matrix :=
  run (if (n_rows m =? 0) || negb (length data =? n_rows m)
       then Return m
       else
         let* _ := for_range (n_rows m)
                     (fun i (_ : unit) =>
                        let* x := vget data i in
                        if negb (isfinite x) then Return m else Next tt) tt in
         let* cell' := for_range (n_rows m)
                     (fun i c =>
                        let* x := vget data i in
                        let* line := vget c i in
                        let* line' := vset line index x in
                        vset c i line') (cell m) in
         Next (with_cell m cell')).

Definition size (m : Matrix) : nat * nat := (n_rows m, n_columns m).

Definition is_valid (m : Matrix) : bool :=
  if (n_rows m =? 0) || (n_columns m =? 0) || (n_rows m <? n_columns m)
  then false else true.

Definition is_diagonal_nonzero (m : Matrix) (epsilon : Real) : outcome bool :=
  run (if negb (is_valid m) then Return false
       else
         let* _ := for_range (n_columns m)
                     (fun i (_ : unit) =>
                        let* line := vget (cell m) i in
                        let* x := vget line i in
                        if Rlt (Rabs x) epsilon then Return false
                        else Next tt) tt in
         Return true).
End Model.

(** ** Solve and ErrorEstimate *)

Section Solver.
Context {F : RealFormat}.

(** The state of the statements of [Solve]: the local copies [matrix] and
    [equal]. *)
Definition system : Type := Matrix * list Real.

(** Lines 225-234: the rows with a usable entry, per column. *)
Definition collect_nze (matrix : Matrix) (epsilon : Real)
  (n_rows n_columns : nat) : exec (list Real) (list (list nat)) :=
  for_range n_columns
    (fun column nze_list =>
       let* nze_list :=
         for_range n_rows
           (fun row nze_list =>
              let* x := load matrix (Matrix_ref matrix row column) in
              if Rge (Rabs x) epsilon
              then
                let* l := vget nze_list column in
                vset nze_list column (l ++ [row])
              else Next nze_list) nze_list in
       let* l := vget nze_list column in
       if length l =? 0 then Return [] else Next nze_list)
    (replicate n_columns []).

(** Lines 241-250: the number of rows marked as used. *)
Definition count_used (list_index : list nat) (n_rows : nat)
  : exec (list Real) nat :=
  let* row_used :=
    for_range n_rows
      (fun i row_used =>
         let* k := vget list_index i in
         vset row_used k true) (replicate n_rows false) in
  for_range n_rows
    (fun i n_used =>
       let* b := vget row_used i in
       Next (if b : bool then S n_used else n_used)) 0.

(** Lines 257-267: one step of the odometer. *)
Definition advance (nze_list : list (list nat)) (list_index : list nat)
  (n_columns : nat) : exec (list Real) (list nat) :=
  let* k := vget list_index 0 in
  let* list_index := vset list_index 0 (S k) in
  let* list_index :=
    for_range (n_columns - 1)
      (fun i list_index =>
         let* k := vget list_index i in
         let* l := vget nze_list i in
         if length l <=? k
         then
           let* list_index := vset list_index i 0 in
           let* k' := vget list_index (i + 1) in
           vset list_index (i + 1) (S k')
         else Next list_index) list_index in
  let* k := vget list_index (n_columns - 1) in
  let* l := vget nze_list (n_columns - 1) in
  if length l <=? k then Return [] else Next list_index.

(** Lines 237-269: the search for a usable assignment. *)
Definition search (fuel : nat) (nze_list : list (list nat))
  (n_rows n_columns : nat) : exec (list Real) (list nat) :=
  while_true fuel
    (fun list_index =>
       let* n_used := count_used list_index n_rows in
       if n_used =? n_columns then Next (inr list_index)
       else
         let* list_index := advance nze_list list_index n_columns in
         Next (inl list_index))
    (replicate n_columns 0).

(** Lines 271-282: the reduced square system.  The conversion of
    [list_index[row]] to [uint8_t] changes nothing: a counter that passed
    the odometer is below a candidate count, itself at most 255. *)
Definition reduce (matrix : Matrix) (equal : list Real)
  (list_index : list nat) (n_columns : nat) : exec (list Real) system :=
  for_range n_columns
    (fun row '(new_matrix, new_equal) =>
       let* index := vget list_index row in
       let* e := vget equal index in
       let* new_equal := vset new_equal row e in
       let* new_matrix :=
         for_range n_columns
           (fun column new_matrix =>
              let* x := load matrix (Matrix_ref matrix index column) in
              store new_matrix (Matrix_ref new_matrix row column) x)
           new_matrix in
       Next (new_matrix, new_equal))
    (Matrix_init n_columns n_columns, replicate n_columns (Real_of_Z 0)).

(** Lines 220-283: the branch taken when the diagonal is not usable. *)
Definition select_pivots (fuel : nat) (matrix : Matrix) (equal : list Real)
  (epsilon : Real) (n_rows n_columns : nat) : exec (list Real) system :=
  let* nze_list := collect_nze matrix epsilon n_rows n_columns in
  let* list_index := search fuel nze_list n_rows n_columns in
  reduce matrix equal list_index n_columns.

(** Lines 291-298: the body of the elimination loops. *)
Definition eliminate_row (n_columns column row : nat) (st : system)
  : exec (list Real) system :=
  let '(matrix, equal) := st in
  if row =? column then Next st
  else
    let* a := load matrix (Matrix_ref matrix row column) in
    let* b := load matrix (Matrix_ref matrix column column) in
    let scalar := Rdiv a b in
    if negb (isfinite scalar) then Return []
    else
      let* matrix :=
        for_range n_columns
          (fun k matrix =>
             let* y := load matrix (Matrix_ref matrix column k) in
             let* x := load matrix (Matrix_ref matrix row k) in
             store matrix (Matrix_ref matrix row k) (Rsub x (Rmul y scalar)))
          matrix in
      let* ec := vget equal column in
      let* er := vget equal row in
      let* equal := vset equal row (Rsub er (Rmul ec scalar)) in
      Next (matrix, equal).

Definition eliminate_column (n_columns column : nat) (st : system)
  : exec (list Real) system :=
  for_range n_columns (eliminate_row n_columns column) st.

(** Lines 287-299. *)
Definition eliminate (n_columns : nat) (st : system)
  : exec (list Real) system :=
  for_range n_columns (eliminate_column n_columns) st.

(** Lines 305-309: the body of the normalization loop. *)
Definition normalize_row (st : system) (i : nat) (result : list Real)
  : exec (list Real) (list Real) :=
  let* e := vget (st.2) i in
  let* d := load (st.1) (Matrix_ref (st.1) i i) in
  let value := Rdiv e d in
  if negb (isfinite value) then Return []
  else vset result i value.

(** Lines 302-312. *)
Definition normalize (n_columns : nat) (st : system)
  : exec (list Real) (list Real) :=
  for_range n_columns (normalize_row st) (replicate n_columns (Real_of_Z 0)).

(** Lines 211-283: validation and, if needed, pivot selection. *)
Definition prepare (fuel : nat) (matrix : Matrix) (equal : list Real)
  (epsilon : Real) : exec (list Real) system :=
  if negb (is_valid matrix) then Return []
  else
    let '(n_rows, n_columns) := size matrix in
    if negb (n_rows =? length equal) then Return []
    else
      let* ok := call (is_diagonal_nonzero matrix epsilon) in
      if negb ok
      then select_pivots fuel matrix equal epsilon n_rows n_columns
      else Next (matrix, equal).

Definition Solve (fuel : nat) (matrix : Matrix) (equal : list Real)
  (epsilon : Real) : outcome (list Real) :=
  run (let* st := prepare fuel matrix equal epsilon in
       let* st := eliminate (n_columns matrix) st in
       normalize (n_columns matrix) st).

Definition ErrorEstimate (matrix : Matrix) (equal result : list Real)
  : outcome Real :=
  run (if negb (is_valid matrix) then Return NaN
       else
         let '(n_rows, n_columns) := size matrix in
         if negb (n_rows =? length equal) || negb (n_columns =? length result)
         then Return NaN
         else
           for_range n_rows
             (fun i error =>
                let* sum :=
                  for_range n_columns
                    (fun j sum =>
                       let* a := call (Matrix_get matrix i j) in
                       let* x := vget result j in
                       Next (Radd sum (Rmul a x))) (Real_of_Z 0) in
                let* e := vget equal i in
                Next (Radd error (Rabs (Rsub sum e)))) (Real_of_Z 0)).
End Solver.

(** ** Example systems *)

Definition matrix_of {F : RealFormat} (rows : list (list Z)) : Matrix :=
  {| n_rows := length rows;
     n_columns := match rows with [] => 0 | r :: _ => length r end;
     cell := map (map Real_of_Z) rows;
     dummy := NaN |}.

Definition reals_of {F : RealFormat} (l : list Z) : list Real := map Real_of_Z l.


(** ** The residual in the words of the specification *)

Section Residual.
Context {F : RealFormat}.

(** The sum of [f 0], ..., [f (n - 1)], accumulated from zero in this
    order (floating-point addition is not associative). *)
Definition sum_upto (n : nat) (f : nat -> Real) : Real :=
  fold_left (fun acc i => Radd acc (f i)) (seq 0 n) (Real_of_Z 0).

(** [matrix(i, j)] *)
Definition entry (m : Matrix) (i j : nat) : Real :=
  nth j (nth i (cell m) []) NaN.

(** [|sum_j matrix(i,j) * solution[j] - equal[i]|] *)
Definition row_residual (m : Matrix) (equal solution : list Real) (i : nat)
  : Real :=
  Rabs (Rsub (sum_upto (n_columns m)
                (fun j => Rmul (entry m i j) (nth j solution NaN)))
             (nth i equal NaN)).

(** The sum over all rows [i] of [|sum_j matrix(i,j) * solution[j] - equal[i]|]. *)
Definition total_residual (m : Matrix) (equal solution : list Real) : Real :=
  sum_upto (n_rows m) (row_residual m equal solution).

(** Equation [i] holds exactly for [solution]. *)
Definition solves_row (m : Matrix) (equal solution : list Real) (i : nat)
  : bool :=
  SFeqb (row_residual m equal solution i) (Real_of_Z 0).

(** [std::numeric_limits<Real>::max()] *)
Definition Real_max : Real := SFmax_float prec emax.
End Residual.

(** A value whose sign bit is clear, or NaN. *)
Definition sign_clear (x : Real) : Prop :=
  match x with
  | S754_nan => True
  | S754_zero s | S754_infinity s | S754_finite s _ _ => s = false
  end.

(** A system with finite values whose products overflow: the matrix
    [[max, max], [0, 0]], the right-hand side [0, 0] and the candidate
    solution [max, -max]. *)
Definition overflow_matrix {F : RealFormat} : Matrix :=
  {| n_rows := 2; n_columns := 2;
     cell := [[Real_max; Real_max]; [Real_of_Z 0; Real_of_Z 0]];
     dummy := NaN |}.

Definition overflow_solution {F : RealFormat} : list Real :=
  [Real_max; SFopp Real_max].

(** A statement that can leave the function only through [return {}]. *)
Definition returns_only_empty {A} (e : exec (list Real) A) : Prop :=
  forall r, e = Return r -> r = [].

(** An overdetermined system, 5 rows and 4 columns: rows 0 to 3 are
    independent equations solved exactly by [1, 1, 1, 1], row 4 contradicts
    that solution. *)
Definition scenario_C_matrix {F : RealFormat} : Matrix :=
  matrix_of [[1; 1; 0; 0]; [1; 1; 1; 0]; [0; 1; 1; 0]; [0; 0; 0; 1];
             [1; 0; 0; 0]]%Z.

Definition scenario_C_equal {F : RealFormat} : list Real :=
  reals_of [2; 3; 2; 1; 5]%Z.

Definition scenario_C_solution {F : RealFormat} : list Real :=
  reals_of [1; 1; 1; 1]%Z.

(** ** Notions used by the proofs *)

(** The matrix after an assignment to the cell [(i, j)]. *)
Definition poke (m : Matrix) (i j : nat) (v : Real) : Matrix :=
  with_cell m (<[i := <[j := v]> (nth i (cell m) [])]> (cell m)).

(** Two runs end the same way, without fault: both complete, in related
    states, or both return the same value. *)
Definition exec_rel {R A B} (Rel : A -> B -> Prop)
  (e : exec R A) (e' : exec R B) : Prop :=
  match e, e' with
  | Next a, Next b => Rel a b
  | Return r, Return r' => r = r'
  | _, _ => False
  end.

(** Two well-formed matrices with [n] columns and the same first [n] rows. *)
Definition same_leading_rows (n : nat) (m m' : Matrix) : Prop :=
  Matrix_wf m /\ Matrix_wf m' /\
  n_columns m = n /\ n_columns m' = n /\
  n <= n_rows m /\ n <= n_rows m' /\
  take n (cell m) = take n (cell m').

(** Two systems with the same first [n] equations. *)
Definition same_leading_system (n : nat) (st st' : system) : Prop :=
  same_leading_rows n st.1 st'.1 /\
  n <= length st.2 /\ n <= length st'.2 /\
  take n st.2 = take n st'.2.

(** The formats the header can select. *)
Definition supported (F : RealFormat) : Prop := F = float128_t \/ F = long_double.

(** A data vector that [set_row]/[set_column] must reject for dimension [n]. *)
Definition rejected (n : nat) (data : list Real) : Prop :=
  length data <> n \/ Exists (fun x => isfinite x = false) data.

(** ** Quotients that are not finite *)

(** A statement that never executes a return. *)
Definition never_returns {R A} (e : exec R A) : Prop :=
  forall r, e <> Return r.

Section Nonfinite.
Context {F : RealFormat}.

(** Some round of the elimination is reached, from the system [st] of [n]
    unknowns, in which the scalar [matrix(row, column) / matrix(column,
    column)] is not finite. *)
Definition nonfinite_scalar (n : nat) (st : system) : Prop :=
  exists column row st1 st2 a b,
    column < n /\ row < n /\ row <> column /\
    for_range column (eliminate_column n) st = Next st1 /\
    for_range row (eliminate_row n column) st1 = Next st2 /\
    load (R:=list Real) st2.1 (Matrix_ref st2.1 row column) = Next a /\
    load (R:=list Real) st2.1 (Matrix_ref st2.1 column column) = Next b /\
    isfinite (Rdiv a b) = false.

(** The elimination completes and some round of the normalization is
    reached in which the quotient [equal[i] / matrix(i, i)] is not finite. *)
Definition nonfinite_quotient (n : nat) (st : system) : Prop :=
  exists st' i result e d,
    eliminate n st = Next st' /\ i < n /\
    for_range i (normalize_row st') (replicate n (Real_of_Z 0))
    = Next result /\
    vget (R:=list Real) st'.2 i = Next e /\
    load (R:=list Real) st'.1 (Matrix_ref st'.1 i i) = Next d /\
    isfinite (Rdiv e d) = false.

(** A system of 5 rows and 4 columns that [Solve] solves, with finite
    values, whose fifth row overflows in [ErrorEstimate]. *)
Definition scenario_C_overflow_matrix : Matrix :=
  {| n_rows := 5; n_columns := 4;
     cell := map (map Real_of_Z)
               [[1; 0; 0; 0]; [0; 1; 0; 0]; [0; 0; 1; 0]; [0; 0; 0; 1]]%Z
             ++ [[Real_max; Real_max; Real_of_Z 0; Real_of_Z 0]];
     dummy := NaN |}.

Definition scenario_C_overflow_equal : list Real :=
  [Real_max; SFopp Real_max; Real_of_Z 0; Real_of_Z 0; Real_of_Z 0].
End Nonfinite.

(** ** Notions used for the rest of the header *)

(** Every stored value is finite. *)
Definition Matrix_finite (m : Matrix) : Prop :=
  Forall (Forall (fun x => isfinite x = true)) (cell m).

(** The rows of column [c] whose entry has magnitude at least [epsilon],
    among the first [rows] rows, in increasing order. *)
Definition candidates (m : Matrix) (epsilon : Real) (rows c : nat) : list nat :=
  List.filter (fun r => Rge (Rabs (entry m r c)) epsilon) (seq 0 rows).

(** The product of the first [i] sizes (of all of them, when there are
    fewer). *)
Fixpoint weight (sizes : list nat) (i : nat) {struct i} : nat :=
  match i with
  | O => 1
  | S i =>
      match sizes with
      | [] => 1
      | s :: sizes => s * weight sizes i
      end
  end.

(** The number the counters spell, digit 0 first, digit [i] in base
    [sizes[i]]. *)
Fixpoint odometer_value (sizes list_index : list nat) : nat :=
  match sizes, list_index with
  | s :: sizes, k :: list_index => k + s * odometer_value sizes list_index
  | _, _ => 0
  end.

(** One counter per column, each below the number of candidates of its
    column. *)
Definition in_range (nze_list : list (list nat)) (list_index : list nat)
  : Prop :=
  Forall2 (fun s k => k < s) (map length nze_list) list_index.

(** ** The driver, [main] *)

(** Sequencing of two calls. *)
Definition and_then {A B} (o : outcome A) (k : A -> outcome B) : outcome B :=
  match o with
  | Ok a => k a
  | Undefined => Undefined
  | OutOfFuel => OutOfFuel
  end.

Section Driver.
Context {F : RealFormat}.

(** [{ 2, 2 * x, 2 * x * x, 2 * x * x * x, 2 * x * x * x * x }] *)
Definition powers_column (x : Real) : list Real :=
  [Real_of_Z 2;
   Rmul (Real_of_Z 2) x;
   Rmul (Rmul (Real_of_Z 2) x) x;
   Rmul (Rmul (Rmul (Real_of_Z 2) x) x) x;
   Rmul (Rmul (Rmul (Rmul (Real_of_Z 2) x) x) x) x].

(** The matrix [main] hands to [Solve]: the constructor call and the four
    [set_column] calls, with [x1] the abscissa of column 1 and [x] the one of
    column 2. *)
Definition driver_matrix (x1 x : Real) : outcome Matrix :=
  and_then (set_column (Matrix_init 5 4) 0 (reals_of [2; 2; 2; 2; 2]%Z))
    (fun m =>
  and_then (set_column m 1 (powers_column x1))
    (fun m =>
  and_then (set_column m 3 (reals_of [1; 0; 0; 0; 0]%Z))
    (fun m =>
  set_column m 2 (powers_column x)))).
End Driver.

(** * Properties *)

(** ** Loops *)

Section Loops.
Context {R St : Type}.
Implicit Types (body : nat -> St -> exec R St) (l : list nat).

Lemma for_each_app l1 l2 body s :
  for_each (l1 ++ l2) body s =
  let* s' := for_each l1 body s in for_each l2 body s'.
Proof.
  revert s; induction l1 as [|i l1 IH]; intros s; simpl; [done|].
  destruct (body i s); simpl; auto.
Qed.

Lemma for_range_S n body s :
  for_range (S n) body s = let* s' := for_range n body s in body n s'.
Proof.
  unfold for_range. rewrite seq_S, for_each_app. simpl.
  destruct (for_each (seq 0 n) body s); simpl; [|done..].
  by destruct (body n a).
Qed.

Lemma for_each_ext l body body' s :
  (forall i s, i ∈ l -> body i s = body' i s) ->
  for_each l body s = for_each l body' s.
Proof.
  revert s; induction l as [|i l IH]; intros s Hext; simpl; [done|].
  rewrite (Hext i s) by left.
  destruct (body' i s); simpl; [|done..].
  apply IH. intros; apply Hext. by right.
Qed.

(** A loop whose body always completes and keeps [P] completes and keeps
    [P]. *)
Lemma for_each_invariant (P : St -> Prop) l body s :
  P s ->
  (forall i s, i ∈ l -> P s -> exists s', body i s = Next s' /\ P s') ->
  exists s', for_each l body s = Next s' /\ P s'.
Proof.
  revert s; induction l as [|i l IH]; intros s HP Hbody; simpl; [by eauto|].
  destruct (Hbody i s) as (s' & -> & HP'); [by left|done|]. simpl.
  apply IH; [done|]. intros; apply Hbody; [by right|done].
Qed.

(** A loop whose body never faults and only ever returns [r] either
    completes or returns [r]. *)
Lemma for_each_returns (r : R) (P : St -> Prop) l body s :
  P s ->
  (forall i s, i ∈ l -> P s ->
     (exists s', body i s = Next s' /\ P s') \/ body i s = Return r) ->
  (exists s', for_each l body s = Next s' /\ P s') \/
  for_each l body s = Return r.
Proof.
  revert s; induction l as [|i l IH]; intros s HP Hbody; simpl; [by eauto|].
  destruct (Hbody i s) as [(s' & -> & HP') | ->]; [by left|done| |by right].
  simpl. apply IH; [done|]. intros; apply Hbody; [by right|done].
Qed.

(** Once the body returns, the rest of the loop is skipped. *)
Lemma for_each_return_at l1 i l2 body s s' r :
  for_each l1 body s = Next s' ->
  body i s' = Return r ->
  for_each (l1 ++ i :: l2) body s = Return r.
Proof.
  intros H1 H2. rewrite for_each_app, H1. simpl. by rewrite H2.
Qed.

Lemma for_each_fault_at l1 i l2 body s s' :
  for_each l1 body s = Next s' ->
  body i s' = Fault ->
  for_each (l1 ++ i :: l2) body s = Fault.
Proof.
  intros H1 H2. rewrite for_each_app, H1. simpl. by rewrite H2.
Qed.
End Loops.

Lemma seq_split i n :
  i < n -> seq 0 n = seq 0 i ++ i :: seq (S i) (n - S i).
Proof.
  intros Hi. transitivity (seq 0 (i + S (n - S i)));
    [f_equal; lia | by rewrite seq_app].
Qed.

Lemma for_range_return_at {R St} n i (body : nat -> St -> exec R St) s s' r :
  i < n ->
  for_range i body s = Next s' ->
  body i s' = Return r ->
  for_range n body s = Return r.
Proof.
  intros Hi Hrun Hret. unfold for_range. rewrite (seq_split i n Hi).
  by apply for_each_return_at with s'.
Qed.

Lemma for_range_fault_at {R St} n i (body : nat -> St -> exec R St) s s' :
  i < n ->
  for_range i body s = Next s' ->
  body i s' = Fault ->
  for_range n body s = Fault.
Proof.
  intros Hi Hrun Hret. unfold for_range. rewrite (seq_split i n Hi).
  by apply for_each_fault_at with s'.
Qed.

(** What holds before a completed loop and is kept by every completed round
    holds after it. *)
Lemma for_each_Next_invariant {R St} (P : St -> Prop) l
  (body : nat -> St -> exec R St) s s' :
  P s ->
  (forall i s s', i ∈ l -> P s -> body i s = Next s' -> P s') ->
  for_each l body s = Next s' -> P s'.
Proof.
  revert s; induction l as [|i l IH]; intros s HP Hbody; simpl.
  - by intros [= <-].
  - destruct (body i s) as [s1| | |] eqn:Hs; simpl; [|done..].
    apply IH; [|intros; eapply Hbody; eauto; by right].
    eapply Hbody; eauto. by left.
Qed.

(** ** Vectors *)

Lemma vget_Next {R A} (v : list A) i a :
  v !! i = Some a -> vget (R:=R) v i = Next a.
Proof. unfold vget. by intros ->. Qed.

Lemma vget_Fault {R A} (v : list A) i :
  length v <= i -> vget (R:=R) v i = Fault.
Proof. intros H. unfold vget. by rewrite lookup_ge_None_2. Qed.

Lemma vset_Next {R A} (v : list A) i a :
  i < length v -> vset (R:=R) v i a = Next (<[i:=a]> v).
Proof. intros H. unfold vset. by apply Nat.ltb_lt in H as ->. Qed.

Lemma vset_Fault {R A} (v : list A) i a :
  length v <= i -> vset (R:=R) v i a = Fault.
Proof. intros H. unfold vset. by apply Nat.ltb_ge in H as ->. Qed.

(** The finiteness check of [set_row] and [set_column]. *)
Lemma all_finite_loop {R} (r : R) (data : list Real) a n :
  a + n = length data ->
  for_each (seq a n)
    (fun i (_ : unit) =>
       let* x := vget data i in
       if negb (isfinite x) then Return r else Next tt) tt =
  if forallb isfinite (drop a data) then Next tt else Return r.
Proof.
  revert a; induction n as [|n IH]; intros a Hlen; simpl.
  - rewrite drop_ge by lia. done.
  - destruct (lookup_lt_is_Some_2 data a) as [x Hx]; [lia|].
    rewrite (vget_Next _ _ _ Hx). simpl.
    rewrite (drop_S _ _ _ Hx). simpl.
    destruct (isfinite x); simpl; [|done].
    apply IH. lia.
Qed.

Lemma forallb_isfinite_false (data : list Real) :
  Exists (fun x => isfinite x = false) data -> forallb isfinite data = false.
Proof.
  induction 1 as [x l Hx|x l _ IH]; simpl.
  - by rewrite Hx.
  - rewrite IH. apply andb_false_r.
Qed.

Lemma forallb_isfinite_true (data : list Real) :
  Forall (fun x => isfinite x = true) data -> forallb isfinite data = true.
Proof. induction 1 as [|x l Hx _ IH]; simpl; [done|]. by rewrite Hx, IH. Qed.

(** ** Matrix *)

Lemma set_row_rejected (m : Matrix) index data :
  rejected (n_columns m) data -> set_row m index data = Ok m.
Proof.
  intros Hrej. unfold set_row.
  destruct (n_columns m =? 0) eqn:Hz; simpl; [done|].
  destruct (length data =? n_columns m) eqn:Hlen; simpl; [|done].
  apply Nat.eqb_eq in Hlen.
  destruct Hrej as [Hne | Hbad]; [done|].
  unfold for_range. rewrite all_finite_loop by (simpl; lia).
  rewrite drop_0, (forallb_isfinite_false _ Hbad). done.
Qed.

Lemma set_column_rejected (m : Matrix) index data :
  rejected (n_rows m) data -> set_column m index data = Ok m.
Proof.
  intros Hrej. unfold set_column.
  destruct (n_rows m =? 0) eqn:Hz; simpl; [done|].
  destruct (length data =? n_rows m) eqn:Hlen; simpl; [|done].
  apply Nat.eqb_eq in Hlen.
  destruct Hrej as [Hne | Hbad]; [done|].
  unfold for_range at 1. rewrite all_finite_loop by (simpl; lia).
  rewrite drop_0, (forallb_isfinite_false _ Hbad). done.
Qed.

(** C5: [set_row] with an in-range row index and [set_column] with an
    in-range column index leave the matrix as it was, cells included, when the
    data vector has the wrong length or holds a value that is not finite; no
    partial write happens. *)
Theorem set_row_set_column_all_or_nothing
  (m : Matrix) (r c : nat) (row_data column_data : list Real) :
  r < n_rows m -> c < n_columns m ->
  rejected (n_columns m) row_data ->
  rejected (n_rows m) column_data ->
  set_row m r row_data = Ok m /\ set_column m c column_data = Ok m.
Proof.
  intros _ _ Hrow Hcol. split.
  - by apply set_row_rejected.
  - by apply set_column_rejected.
Qed.

Lemma set_row_set_column_all_or_nothing_witness :
  let m := Matrix_init (F:=float128_t) 2 2 in
  set_row m 1 [NaN; Real_of_Z (F:=float128_t) 1] = Ok m /\
  set_column m 0 [Real_of_Z (F:=float128_t) 1] = Ok m.
Proof.
  apply set_row_set_column_all_or_nothing.
  - simpl. lia.
  - simpl. lia.
  - right. by left.
  - left. simpl. lia.
Defined.

Lemma Matrix_init_underdetermined {F : RealFormat} rows columns :
  rows < columns -> Matrix_init rows columns = Matrix_default.
Proof. intros H. unfold Matrix_init. by apply Nat.ltb_lt in H as ->. Qed.

(** C8: constructing a matrix with fewer rows than columns gives the empty
    matrix: its dimensions are (0, 0), [is_valid] rejects it and [Solve]
    returns the empty sequence whatever the right-hand side. *)
Theorem underdetermined_matrix_is_empty {F : RealFormat}
  (rows columns fuel : nat) (equal : list Real) (epsilon : Real) :
  rows < columns ->
  size (Matrix_init rows columns) = (0, 0) /\
  is_valid (Matrix_init rows columns) = false /\
  Solve fuel (Matrix_init rows columns) equal epsilon = Ok [].
Proof.
  intros H. rewrite (Matrix_init_underdetermined _ _ H). by repeat split.
Qed.

Lemma underdetermined_matrix_is_empty_witness :
  size (Matrix_init (F:=float128_t) 1 2) = (0, 0) /\
  is_valid (Matrix_init (F:=float128_t) 1 2) = false /\
  Solve (F:=float128_t) 0 (Matrix_init (F:=float128_t) 1 2) [NaN] NaN = Ok [].
Proof. apply underdetermined_matrix_is_empty. lia. Defined.

Lemma Matrix_ref_out_of_bounds (m : Matrix) row column :
  n_rows m <= row \/ n_columns m <= column ->
  Matrix_ref m row column = ref_dummy.
Proof.
  intros H. unfold Matrix_ref.
  destruct H as [H|H]; apply Nat.leb_le in H; rewrite H; [done|].
  by rewrite orb_true_r.
Qed.

Lemma Matrix_ref_in_bounds (m : Matrix) row column :
  row < n_rows m -> column < n_columns m ->
  Matrix_ref m row column = ref_cell row column.
Proof.
  intros Hr Hc. unfold Matrix_ref.
  apply Nat.leb_gt in Hr as ->. by apply Nat.leb_gt in Hc as ->.
Qed.

(** C10: the reference [operator()] hands out for a coordinate out of
    bounds is the scratch member [dummy]; assigning through it changes
    neither a cell nor a dimension, so every read of the matrix through the
    const accessor is as before. *)
Theorem write_out_of_bounds_is_discarded
  (R : Type) (m : Matrix) (row column : nat) (v : Real) :
  n_rows m <= row \/ n_columns m <= column ->
  Matrix_ref m row column = ref_dummy /\
  exists m', store (R:=R) m (Matrix_ref m row column) v = Next m' /\
    cell m' = cell m /\ size m' = size m /\
    forall i j, Matrix_get m' i j = Matrix_get m i j.
Proof.
  intros H. rewrite (Matrix_ref_out_of_bounds _ _ _ H). split; [done|].
  exists (with_dummy m v). by repeat split.
Qed.

Lemma write_out_of_bounds_is_discarded_witness :
  let m := Matrix_init (F:=float128_t) 2 2 in
  Matrix_ref m 2 0 = ref_dummy /\
  exists m', store (R:=unit) m (Matrix_ref m 2 0) NaN = Next m' /\
    cell m' = cell m /\ size m' = size m /\
    forall i j, Matrix_get m' i j = Matrix_get m i j.
Proof. apply write_out_of_bounds_is_discarded. left. simpl. lia. Defined.

(** The write loop of [set_column], after [k] rows. *)
Lemma set_column_loop {R} index (data : list Real) (c : list (list Real)) k :
  k <= length c ->
  length data = length c ->
  Forall (fun line => index < length line) c ->
  for_range (R:=R) k
    (fun i c =>
       let* x := vget data i in
       let* line := vget c i in
       let* line' := vset line index x in
       vset c i line') c =
  Next (zip_with (fun line x => <[index:=x]> line) (take k c) (take k data)
        ++ drop k c).
Proof.
  intros Hk Hlen Hwide. induction k as [|k IH]; [done|].
  rewrite for_range_S, IH by lia. simpl.
  destruct (lookup_lt_is_Some_2 data k) as [x Hx]; [lia|].
  destruct (lookup_lt_is_Some_2 c k) as [line Hline]; [lia|].
  assert (Hpre : length (zip_with (fun line x => <[index:=x]> line)
                           (take k c) (take k data)) = k).
  { rewrite length_zip_with, !length_take. lia. }
  rewrite (vget_Next _ _ _ Hx). simpl.
  rewrite (vget_Next _ _ line).
  2:{ rewrite lookup_app_r by lia. rewrite Hpre, Nat.sub_diag.
      by rewrite lookup_drop, Nat.add_0_r. }
  simpl. rewrite vset_Next.
  2:{ exact (Forall_lookup_1 (fun line => index < length line) c k line
               Hwide Hline). }
  simpl. rewrite vset_Next.
  2:{ rewrite length_app, Hpre, length_drop. lia. }
  f_equal.
  rewrite insert_app_r_alt by lia. rewrite Hpre, Nat.sub_diag.
  rewrite (drop_S _ _ _ Hline). simpl.
  rewrite (take_S_r _ _ _ Hx), (take_S_r _ _ _ Hline).
  rewrite zip_with_app by (rewrite !length_take; lia). simpl.
  by rewrite <- app_assoc.
Qed.

(** C9, as the header has it: [set_column] never compares its column index
    with the column count (its loop bound is the row count).  On a well-formed
    matrix with at least one row and a data vector of the right length with
    finite entries, an index below the column count replaces that column and
    touches nothing out of range, while an index at or beyond the column
    count makes the write to [cell[0][index]] fall outside the row. *)
Theorem set_column_index_is_unchecked
  (m : Matrix) (index : nat) (data : list Real) :
  Matrix_wf m -> 0 < n_rows m ->
  length data = n_rows m ->
  Forall (fun x => isfinite x = true) data ->
  (index < n_columns m ->
   set_column m index data =
   Ok (with_cell m (zip_with (fun line x => <[index:=x]> line) (cell m) data)))
  /\ (n_columns m <= index -> set_column m index data = Undefined).
Proof.
  intros [Hrows Hcols] Hpos Hlen Hfin.
  assert (Hhead : set_column m index data =
    run (let* cell' := for_range (n_rows m)
                       (fun i c =>
                          let* x := vget data i in
                          let* line := vget c i in
                          let* line' := vset line index x in
                          vset c i line') (cell m) in
         Next (with_cell m cell'))).
  { unfold set_column.
    destruct (n_rows m =? 0) eqn:Hz; [apply Nat.eqb_eq in Hz; lia|].
    rewrite (proj2 (Nat.eqb_eq _ _) Hlen). simpl.
    unfold for_range at 1. rewrite all_finite_loop by (simpl; lia).
    by rewrite drop_0, (forallb_isfinite_true _ Hfin). }
  rewrite Hhead. split; intros Hindex.
  - rewrite <- Hrows in Hlen |- *. rewrite set_column_loop; [|lia|lia|].
    + simpl. rewrite drop_all, app_nil_r, firstn_all.
      by rewrite <- Hlen, firstn_all.
    + eapply Forall_impl; [exact Hcols|]. simpl. intros line ->. done.
  - destruct (n_rows m) as [|n] eqn:Hn; [lia|].
    unfold for_range. simpl.
    destruct (lookup_lt_is_Some_2 data 0) as [x Hx]; [lia|].
    destruct (lookup_lt_is_Some_2 (cell m) 0) as [line Hline]; [lia|].
    rewrite (vget_Next _ _ _ Hx). simpl.
    rewrite (vget_Next _ _ _ Hline). simpl.
    rewrite vset_Fault; [done|].
    rewrite (Forall_lookup_1 _ _ _ _ Hcols Hline). done.
Qed.

Lemma set_column_index_is_unchecked_witness :
  let m := Matrix_init (F:=float128_t) 1 1 in
  let data := [Real_of_Z (F:=float128_t) 1] in
  (1 < n_columns m ->
   set_column m 1 data =
   Ok (with_cell m (zip_with (fun line x => <[1:=x]> line) (cell m) data)))
  /\ (n_columns m <= 1 -> set_column m 1 data = Undefined).
Proof.
  apply (set_column_index_is_unchecked (Matrix_init (F:=float128_t) 1 1) 1);
    [by repeat constructor | simpl; lia | reflexivity | by repeat constructor].
Defined.

(** C9, as stated, fails: on the 1x1 zero matrix, column index 1 and the
    one-entry vector [1], every premise of the claim holds and [set_column]
    writes outside row 0 instead of leaving the matrix unchanged. *)
Lemma set_column_out_of_range_counterexample :
  let m := Matrix_init (F:=float128_t) 1 1 in
  let data := [Real_of_Z (F:=float128_t) 1] in
  Matrix_wf m /\ n_columns m <= 1 /\ length data = n_rows m /\
  Forall (fun x => isfinite x = true) data /\
  set_column m 1 data = Undefined /\ set_column m 1 data <> Ok m.
Proof. repeat split; try done; by repeat constructor. Qed.

(** ** Pivot selection *)

(** The first loop of the distinct-rows test, run on the initial counters of
    a system with more rows than columns. *)
Lemma count_used_reads_past_list_index rows columns :
  columns < rows -> count_used (replicate columns 0) rows = Fault.
Proof.
  intros Hlt. unfold count_used, for_range.
  rewrite (seq_split columns rows Hlt).
  destruct (for_each_invariant (R:=list Real)
              (fun row_used : list bool => length row_used = rows)
              (seq 0 columns)
              (fun i row_used =>
                 let* k := vget (replicate columns 0) i in
                 vset row_used k true)
              (replicate rows false)) as (row_used & Hrun & Hlen).
  { by rewrite length_replicate. }
  { intros i s Hi Hs. apply elem_of_seq in Hi.
    rewrite (vget_Next _ _ 0) by (apply lookup_replicate_2; lia). simpl.
    rewrite vset_Next by lia. eexists; split; [done|].
    by rewrite length_insert. }
  erewrite for_each_fault_at; [done|exact Hrun|].
  rewrite vget_Fault; [done|]. by rewrite length_replicate.
Qed.

(** C4 on the header: with more rows than columns, a diagonal that is not
    usable and a candidate row in every column, the distinct-rows test reads
    [list_index[i]] for every [i] below the row count although the vector has
    only as many entries as there are columns.  The read at index [columns] is
    out of range, in the first round of the search already. *)
Theorem distinct_rows_test_reads_out_of_range {F : RealFormat}
  (fuel : nat) (matrix : Matrix) (equal : list Real) (epsilon : Real)
  (nze_list : list (list nat)) :
  is_valid matrix = true ->
  n_columns matrix < n_rows matrix ->
  length equal = n_rows matrix ->
  is_diagonal_nonzero matrix epsilon = Ok false ->
  collect_nze matrix epsilon (n_rows matrix) (n_columns matrix) = Next nze_list ->
  0 < fuel ->
  length (replicate (n_columns matrix) 0) = n_columns matrix /\
  count_used (replicate (n_columns matrix) 0) (n_rows matrix) = Fault /\
  Solve fuel matrix equal epsilon = Undefined.
Proof.
  intros Hvalid Hlt Hlen Hdiag Hnze Hfuel.
  split; [apply length_replicate|].
  pose proof (count_used_reads_past_list_index _ _ Hlt) as Hcount.
  split; [done|].
  unfold Solve, prepare. rewrite Hvalid. simpl.
  rewrite Hlen, Nat.eqb_refl, Hdiag. simpl.
  unfold select_pivots. rewrite Hnze. simpl.
  destruct fuel as [|fuel]; [lia|].
  unfold search. simpl. by rewrite Hcount.
Qed.

Lemma distinct_rows_test_reads_out_of_range_witness :
  count_used (replicate 1 0) 2 = Fault /\
  Solve (F:=float128_t) 1 (matrix_of (F:=float128_t) [[0]; [1]]%Z)
    (reals_of (F:=float128_t) [1; 1]%Z) (magnitude_zero (F:=float128_t))
  = Undefined.
Proof.
  apply (distinct_rows_test_reads_out_of_range (F:=float128_t) 1
           (matrix_of (F:=float128_t) [[0]; [1]]%Z)
           (reals_of (F:=float128_t) [1; 1]%Z)
           (magnitude_zero (F:=float128_t)) [[1]]);
    [reflexivity | simpl; lia | reflexivity | reflexivity | reflexivity | lia].
Defined.

(** C1 on the header: the 2x2 system [[0,1],[1,1]] makes the search accept
    the counters [0, 1].  Column 0 has row 1 as its only candidate, yet
    reduced row 0 is copied from row [list_index[0] = 0]: the counter is used
    as the row number.  The reduced matrix is the original one and its cell
    (0, 0) is zero, below epsilon. *)
Theorem accepted_assignment_has_zero_diagonal (F : RealFormat) (fuel : nat) :
  supported F -> 1 < fuel ->
  let matrix := matrix_of [[0; 1]; [1; 1]]%Z in
  let equal := reals_of [1; 1]%Z in
  collect_nze matrix magnitude_zero 2 2 = Next [[1]; [0; 1]] /\
  search fuel [[1]; [0; 1]] 2 2 = Next [0; 1] /\
  select_pivots fuel matrix equal magnitude_zero 2 2 = Next (matrix, equal) /\
  Matrix_get matrix 0 0 = Ok (Real_of_Z 0) /\
  Rge (Rabs (Real_of_Z 0)) magnitude_zero = false /\
  is_diagonal_nonzero matrix magnitude_zero = Ok false.
Proof.
  intros HF Hfuel. destruct fuel as [|[|fuel]]; [lia..|].
  destruct HF as [-> | ->]; by vm_compute.
Qed.

Lemma accepted_assignment_has_zero_diagonal_witness :
  select_pivots (F:=float128_t) 2 (matrix_of (F:=float128_t) [[0; 1]; [1; 1]]%Z)
    (reals_of (F:=float128_t) [1; 1]%Z) (magnitude_zero (F:=float128_t)) 2 2
  = Next (matrix_of (F:=float128_t) [[0; 1]; [1; 1]]%Z,
          reals_of (F:=float128_t) [1; 1]%Z).
Proof.
  apply (accepted_assignment_has_zero_diagonal float128_t 2); [by left | lia].
Defined.

(** C2 on the header: for [[0,1],[1,0]] with right-hand side [7, 2] the
    search gives up in its first round (the only counters it can reach are
    [0, 0]) and [Solve] returns the empty sequence, not [2, 7];
    [ErrorEstimate] on the empty sequence returns NaN, not 0.  The solution
    the claim expects would have residual 0. *)
Theorem scenario_B_returns_empty (F : RealFormat) (fuel : nat) :
  supported F -> 0 < fuel ->
  let matrix := matrix_of [[0; 1]; [1; 0]]%Z in
  let equal := reals_of [7; 2]%Z in
  Solve fuel matrix equal magnitude_zero = Ok [] /\
  ErrorEstimate matrix equal [] = Ok NaN /\
  ErrorEstimate matrix equal (reals_of [2; 7]%Z) = Ok (Real_of_Z 0).
Proof.
  intros HF Hfuel. destruct fuel as [|fuel]; [lia|].
  destruct HF as [-> | ->]; by vm_compute.
Qed.

Lemma scenario_B_returns_empty_witness :
  Solve (F:=float128_t) 1 (matrix_of (F:=float128_t) [[0; 1]; [1; 0]]%Z)
    (reals_of (F:=float128_t) [7; 2]%Z) (magnitude_zero (F:=float128_t))
  = Ok [].
Proof.
  apply (scenario_B_returns_empty float128_t 1); [by left | lia].
Defined.

(** ** ErrorEstimate *)

Lemma for_each_fold {R St} (l : list nat) (body : nat -> St -> exec R St)
  (f : St -> nat -> St) s :
  (forall i s, i ∈ l -> body i s = Next (f s i)) ->
  for_each l body s = Next (fold_left f l s).
Proof.
  revert s; induction l as [|i l IH]; intros s Hbody; simpl; [done|].
  rewrite Hbody by left. simpl. apply IH. intros; apply Hbody. by right.
Qed.

Lemma Matrix_get_in_bounds (m : Matrix) i j :
  Matrix_wf m -> i < n_rows m -> j < n_columns m ->
  Matrix_get m i j = Ok (entry m i j).
Proof.
  intros [Hrows Hcols] Hi Hj. unfold Matrix_get, entry.
  apply Nat.leb_gt in Hi as Hi'. apply Nat.leb_gt in Hj as Hj'.
  rewrite Hi', Hj'. simpl.
  destruct (lookup_lt_is_Some_2 (cell m) i) as [line Hline]; [lia|].
  pose proof (Forall_lookup_1 _ _ _ _ Hcols Hline) as Hwide. simpl in Hwide.
  destruct (lookup_lt_is_Some_2 line j) as [x Hx]; [lia|].
  rewrite (vget_Next _ _ _ Hline). simpl.
  rewrite (vget_Next _ _ _ Hx). simpl.
  by rewrite (nth_lookup_Some _ _ _ _ Hline), (nth_lookup_Some _ _ _ _ Hx).
Qed.

Lemma binary_round_aux_sign_clear p e mx ex lx :
  sign_clear (binary_round_aux p e false mx ex lx).
Proof.
  unfold binary_round_aux.
  destruct (shr_fexp p e mx ex lx) as [mrs1 e1].
  destruct (shr_fexp p e _ e1 loc_Exact) as [mrs2 e2].
  destruct (shr_m mrs2); simpl; [done| |done].
  by destruct (e2 <=? e - p)%Z.
Qed.

Lemma Radd_sign_clear {F : RealFormat} (x y : Real) :
  sign_clear x -> sign_clear y -> sign_clear (Radd x y).
Proof.
  unfold Radd.
  destruct x as [sx|sx| |sx mx ex], y as [sy|sy| |sy my ey]; simpl;
    try done; intros -> ->; try done.
  unfold binary_normalize, binary_round. simpl.
  destruct (shl_align _ _ _). apply binary_round_aux_sign_clear.
Qed.

Lemma Rabs_sign_clear (x : Real) : sign_clear (Rabs x).
Proof. by destruct x. Qed.

Lemma sum_upto_sign_clear {F : RealFormat} n (f : nat -> Real) :
  (forall i, sign_clear (f i)) -> sign_clear (sum_upto n f).
Proof.
  intros Hf. unfold sum_upto.
  assert (Hacc : sign_clear (Real_of_Z 0)) by done.
  revert Hacc. generalize (Real_of_Z 0). generalize (seq 0 n).
  induction l as [|i l IH]; intros acc Hacc; simpl; [done|].
  apply IH. by apply Radd_sign_clear.
Qed.

Lemma sign_clear_nonnegative {F : RealFormat} (x : Real) :
  sign_clear x -> x = NaN \/ Rle (Real_of_Z 0) x = true.
Proof. destruct x as [s|s| |s m e]; simpl; try (intros ->); auto. Qed.

Lemma ErrorEstimate_rejects {F : RealFormat} (m : Matrix) equal result :
  is_valid m = false \/ length equal <> n_rows m \/ length result <> n_columns m ->
  ErrorEstimate m equal result = Ok NaN.
Proof.
  intros H. unfold ErrorEstimate.
  destruct (is_valid m); simpl; [|done].
  destruct H as [H | [H | H]]; [done| |].
  - destruct (Nat.eqb_spec (n_rows m) (length equal)); [congruence|done].
  - destruct (Nat.eqb_spec (n_columns m) (length result)); [congruence|].
    by rewrite orb_true_r.
Qed.

Lemma ErrorEstimate_accepts {F : RealFormat} (m : Matrix) equal result :
  Matrix_wf m -> is_valid m = true ->
  length equal = n_rows m -> length result = n_columns m ->
  ErrorEstimate m equal result = Ok (total_residual m equal result).
Proof.
  intros Hwf Hvalid Hequal Hresult. unfold ErrorEstimate.
  rewrite Hvalid. simpl. rewrite Hequal, Hresult, !Nat.eqb_refl. simpl.
  unfold for_range.
  erewrite for_each_fold; [done|].
  intros i error Hi. apply elem_of_seq in Hi.
  erewrite for_each_fold.
  2:{ intros j sum Hj. apply elem_of_seq in Hj.
      rewrite Matrix_get_in_bounds by (done || lia). simpl.
      destruct (lookup_lt_is_Some_2 result j) as [x Hx]; [lia|].
      rewrite (vget_Next _ _ _ Hx). simpl.
      rewrite <- (nth_lookup_Some _ _ NaN _ Hx). done. }
  simpl.
  destruct (lookup_lt_is_Some_2 equal i) as [e He]; [lia|].
  rewrite (vget_Next _ _ _ He). simpl.
  by rewrite <- (nth_lookup_Some _ _ NaN _ He).
Qed.

(** C7, as the header has it: [ErrorEstimate] returns NaN when the matrix is
    invalid or a length does not match.  Otherwise it returns the sum over all
    rows of the absolute residuals, accumulated from zero in row order, and
    this value is NaN or nonnegative (infinite at most). *)
Theorem ErrorEstimate_is_total_residual {F : RealFormat}
  (m : Matrix) (equal result : list Real) :
  Matrix_wf m ->
  (is_valid m = false \/ length equal <> n_rows m \/
   length result <> n_columns m ->
   ErrorEstimate m equal result = Ok NaN) /\
  (is_valid m = true -> length equal = n_rows m ->
   length result = n_columns m ->
   ErrorEstimate m equal result = Ok (total_residual m equal result) /\
   (total_residual m equal result = NaN \/
    Rle (Real_of_Z 0) (total_residual m equal result) = true)).
Proof.
  intros Hwf. split.
  - apply ErrorEstimate_rejects.
  - intros Hvalid Hequal Hresult. split.
    + by apply ErrorEstimate_accepts.
    + apply sign_clear_nonnegative, sum_upto_sign_clear.
      intros i. apply Rabs_sign_clear.
Qed.

Lemma ErrorEstimate_is_total_residual_witness :
  ErrorEstimate (F:=float128_t) (matrix_of (F:=float128_t) [[1; 0]; [0; 1]]%Z)
    (reals_of (F:=float128_t) [3; 5]%Z) (reals_of (F:=float128_t) [3; 5]%Z)
  = Ok (total_residual (F:=float128_t)
          (matrix_of (F:=float128_t) [[1; 0]; [0; 1]]%Z)
          (reals_of (F:=float128_t) [3; 5]%Z)
          (reals_of (F:=float128_t) [3; 5]%Z)).
Proof.
  apply (ErrorEstimate_is_total_residual (F:=float128_t)
           (matrix_of (F:=float128_t) [[1; 0]; [0; 1]]%Z)
           (reals_of (F:=float128_t) [3; 5]%Z)
           (reals_of (F:=float128_t) [3; 5]%Z));
    [by repeat constructor | reflexivity..].
Defined.

(** C7, as stated, fails: the matrix [[max, max], [0, 0]] is valid, the
    lengths match and every cell, right-hand side and solution value is
    finite, yet the two products of row 0 overflow to +infinity and
    -infinity, their sum is NaN, and [ErrorEstimate] returns NaN, which is
    not a nonnegative scalar. *)
Lemma ErrorEstimate_overflow_counterexample :
  Matrix_wf (overflow_matrix (F:=float128_t)) /\
  is_valid (overflow_matrix (F:=float128_t)) = true /\
  Forall (Forall (fun x => isfinite x = true))
    (cell (overflow_matrix (F:=float128_t))) /\
  Forall (fun x => isfinite x = true) (overflow_solution (F:=float128_t)) /\
  ErrorEstimate (F:=float128_t) (overflow_matrix (F:=float128_t))
    (reals_of (F:=float128_t) [0; 0]%Z) (overflow_solution (F:=float128_t))
  = Ok NaN /\
  Rle (Real_of_Z (F:=float128_t) 0) NaN = false.
Proof. repeat split; try done; by repeat constructor. Qed.

(** ** Returns of Solve *)

Section ReturnsOnlyEmpty.
Context {F : RealFormat}.

Lemma roe_Next {A} (a : A) : returns_only_empty (Next a).
Proof. by intros r. Qed.

Lemma roe_Return_nil {A} : returns_only_empty (A:=A) (Return []).
Proof. by intros r [= <-]. Qed.

Lemma roe_Fault {A} : returns_only_empty (A:=A) Fault.
Proof. by intros r. Qed.

Lemma roe_bind {A B} (e : exec (list Real) A) (k : A -> exec (list Real) B) :
  returns_only_empty e -> (forall a, returns_only_empty (k a)) ->
  returns_only_empty (bind e k).
Proof.
  intros He Hk r. destruct e as [a|r'| |]; simpl; [exact (Hk a r)| |done..].
  intros [= ->]. by apply He.
Qed.

Lemma roe_for_each {St} l (body : nat -> St -> exec (list Real) St) s :
  (forall i s, returns_only_empty (body i s)) ->
  returns_only_empty (for_each l body s).
Proof.
  intros Hbody. revert s; induction l as [|i l IH]; intros s; simpl.
  - apply roe_Next.
  - by apply roe_bind.
Qed.

Lemma roe_while_true {St A} fuel (body : St -> exec (list Real) (St + A)) s :
  (forall s, returns_only_empty (body s)) ->
  returns_only_empty (while_true fuel body s).
Proof.
  intros Hbody. revert s; induction fuel as [|fuel IH]; intros s; simpl.
  - by intros r.
  - apply roe_bind; [done|]. intros [s'|a]; [apply IH|apply roe_Next].
Qed.

Lemma roe_vget {A} (v : list A) i : returns_only_empty (vget v i).
Proof. unfold vget. intros r. by destruct (v !! i). Qed.

Lemma roe_vset {A} (v : list A) i a : returns_only_empty (vset v i a).
Proof. unfold vset. intros r. by destruct (i <? length v). Qed.

Lemma roe_call {A} (o : outcome A) : returns_only_empty (call o).
Proof. intros r. by destruct o. Qed.

Lemma roe_load m ref : returns_only_empty (load m ref).
Proof.
  destruct ref; simpl; [|apply roe_Next].
  apply roe_bind; [apply roe_vget|]. intros; apply roe_vget.
Qed.

Lemma roe_store m ref v : returns_only_empty (store m ref v).
Proof.
  destruct ref; simpl; [|apply roe_Next].
  repeat (apply roe_bind; [first [apply roe_vget | apply roe_vset]|intros ?]).
  apply roe_Next.
Qed.
End ReturnsOnlyEmpty.

Ltac roe :=
  repeat first
    [ apply roe_Next | apply roe_Return_nil | apply roe_Fault
    | apply roe_vget | apply roe_vset | apply roe_call
    | apply roe_load | apply roe_store
    | apply roe_bind; [|intros ?]
    | apply roe_for_each; intros ? ?
    | apply roe_while_true; intros ?
    | match goal with
      | |- returns_only_empty (let (_, _) := ?x in _) => destruct x
      | |- returns_only_empty (if ?b then _ else _) => destruct b
      | |- returns_only_empty (match ?x with _ => _ end) => destruct x
      end ].

Section SolveReturns.
Context {F : RealFormat}.

Lemma roe_prepare fuel matrix equal epsilon :
  returns_only_empty (prepare fuel matrix equal epsilon).
Proof.
  unfold prepare, select_pivots, collect_nze, search, count_used, advance,
    reduce, size, for_range. roe.
Qed.

Lemma roe_eliminate n st : returns_only_empty (eliminate n st).
Proof.
  unfold eliminate, eliminate_column, eliminate_row, for_range. roe.
Qed.

Lemma roe_normalize n st : returns_only_empty (normalize n st).
Proof. unfold normalize, normalize_row, for_range. roe. Qed.

(** A completed normalization fills every entry with a finite value. *)
Lemma normalize_Next n st v :
  normalize n st = Next v ->
  length v = n /\ Forall (fun x => isfinite x = true) v.
Proof.
  unfold normalize, for_range.
  apply (for_each_Next_invariant
           (fun v => length v = n /\ Forall (fun x => isfinite x = true) v)).
  - split; [apply length_replicate|by apply Forall_replicate].
  - intros i s s' _ [Hlen Hfin]. unfold normalize_row.
    destruct (vget st.2 i) as [e| | |]; simpl; [|done..].
    destruct (load st.1 (Matrix_ref st.1 i i)) as [d| | |]; simpl; [|done..].
    destruct (isfinite (Rdiv e d)) eqn:Hq; simpl; [|done].
    unfold vset. destruct (i <? length s); [|done]. intros [= <-].
    split; [by rewrite length_insert|by apply Forall_insert].
Qed.

Lemma Solve_Ok_shape fuel matrix equal epsilon v :
  Solve fuel matrix equal epsilon = Ok v ->
  v = [] \/
  (length v = n_columns matrix /\ Forall (fun x => isfinite x = true) v).
Proof.
  unfold Solve.
  pose proof (roe_prepare fuel matrix equal epsilon) as Hp.
  destruct (prepare fuel matrix equal epsilon) as [st|r| |]; simpl;
    [|intros [= <-]; left; by apply Hp|done..].
  pose proof (roe_eliminate (n_columns matrix) st) as He.
  destruct (eliminate (n_columns matrix) st) as [st'|r| |]; simpl;
    [|intros [= <-]; left; by apply He|done..].
  pose proof (roe_normalize (n_columns matrix) st') as Hn.
  destruct (normalize (n_columns matrix) st') as [v'|r| |] eqn:Hv; simpl;
    [|intros [= <-]; left; by apply Hn|done..].
  intros [= <-]. right. by apply normalize_Next with st'.
Qed.

Lemma Solve_prepared fuel matrix equal epsilon st :
  prepare fuel matrix equal epsilon = Next st ->
  Solve fuel matrix equal epsilon =
  run (let* st' := eliminate (n_columns matrix) st in
       normalize (n_columns matrix) st').
Proof. unfold Solve. by intros ->. Qed.

(** A scalar that is not finite ends the elimination. *)
Lemma eliminate_row_nonfinite n column row st a b :
  row <> column ->
  load (R:=list Real) st.1 (Matrix_ref st.1 row column) = Next a ->
  load (R:=list Real) st.1 (Matrix_ref st.1 column column) = Next b ->
  isfinite (Rdiv a b) = false ->
  eliminate_row n column row st = Return [].
Proof.
  intros Hne Ha Hb Hq. destruct st as [matrix equal]. simpl in *.
  unfold eliminate_row.
  destruct (Nat.eqb_spec row column); [done|].
  rewrite Ha. simpl. rewrite Hb. simpl. by rewrite Hq.
Qed.

Lemma normalize_row_nonfinite st i result e d :
  vget (R:=list Real) st.2 i = Next e ->
  load (R:=list Real) st.1 (Matrix_ref st.1 i i) = Next d ->
  isfinite (Rdiv e d) = false ->
  normalize_row st i result = Return [].
Proof.
  intros He Hd Hq. unfold normalize_row.
  rewrite He. simpl. rewrite Hd. simpl. by rewrite Hq.
Qed.

(** C6: [Solve] returns the empty sequence as soon as, in a round of the
    elimination, the scalar [matrix(row, column) / matrix(column, column)]
    computed on the state reached is not finite, and as soon as, in a round
    of the normalization, the quotient [equal[i] / matrix(i, i)] is not
    finite.  Whatever [Solve] returns is empty or has one finite entry per
    column: no partly filled vector comes back. *)
Theorem nonfinite_quotient_gives_empty
  (fuel : nat) (matrix : Matrix) (equal : list Real) (epsilon : Real) :
  let n := n_columns matrix in
  (forall st column row st1 st2 a b,
     prepare fuel matrix equal epsilon = Next st ->
     column < n -> row < n -> row <> column ->
     for_range column (eliminate_column n) st = Next st1 ->
     for_range row (eliminate_row n column) st1 = Next st2 ->
     load (R:=list Real) st2.1 (Matrix_ref st2.1 row column) = Next a ->
     load (R:=list Real) st2.1 (Matrix_ref st2.1 column column) = Next b ->
     isfinite (Rdiv a b) = false ->
     Solve fuel matrix equal epsilon = Ok []) /\
  (forall st st' i result e d,
     prepare fuel matrix equal epsilon = Next st ->
     eliminate n st = Next st' ->
     i < n ->
     for_range i (normalize_row st') (replicate n (Real_of_Z 0)) = Next result ->
     vget (R:=list Real) st'.2 i = Next e ->
     load (R:=list Real) st'.1 (Matrix_ref st'.1 i i) = Next d ->
     isfinite (Rdiv e d) = false ->
     Solve fuel matrix equal epsilon = Ok []) /\
  (forall v,
     Solve fuel matrix equal epsilon = Ok v ->
     v = [] \/ (length v = n /\ Forall (fun x => isfinite x = true) v)).
Proof.
  intros n. split; [|split].
  - intros st column row st1 st2 a b Hp Hc Hr Hne H1 H2 Ha Hb Hq.
    rewrite (Solve_prepared _ _ _ _ _ Hp). fold n.
    assert (eliminate n st = Return []) as ->; [|done].
    apply for_range_return_at with column st1; [done..|].
    apply for_range_return_at with row st2; [done..|].
    by apply eliminate_row_nonfinite with a b.
  - intros st st' i result e d Hp He Hi Hrun Hq1 Hq2 Hq.
    rewrite (Solve_prepared _ _ _ _ _ Hp). fold n. rewrite He.
    change (run (normalize n st') = Ok []).
    assert (normalize n st' = Return []) as ->; [|done].
    apply for_range_return_at with i result; [done..|].
    by apply normalize_row_nonfinite with e d.
  - apply Solve_Ok_shape.
Qed.
End SolveReturns.

(** ** Elimination on the leading rows *)

Lemma exec_rel_bind {R A A' B B'} (RelA : A -> A' -> Prop)
  (RelB : B -> B' -> Prop) (e : exec R A) (e' : exec R A')
  (k : A -> exec R B) (k' : A' -> exec R B') :
  exec_rel RelA e e' ->
  (forall a a', RelA a a' -> exec_rel RelB (k a) (k' a')) ->
  exec_rel RelB (bind e k) (bind e' k').
Proof.
  intros He Hk. destruct e, e'; simpl in *; try done. by apply Hk.
Qed.

Lemma for_each_rel {R A B} (Rel : A -> B -> Prop) l
  (body : nat -> A -> exec R A) (body' : nat -> B -> exec R B) s s' :
  Rel s s' ->
  (forall i a b, i ∈ l -> Rel a b -> exec_rel Rel (body i a) (body' i b)) ->
  exec_rel Rel (for_each l body s) (for_each l body' s').
Proof.
  revert s s'; induction l as [|i l IH]; intros s s' Hs Hbody; simpl; [done|].
  apply exec_rel_bind with Rel; [apply Hbody; [by left|done]|].
  intros a a' Ha. apply IH; [done|]. intros; apply Hbody; [by right|done].
Qed.

Lemma load_in_bounds {R} (m : Matrix) i j :
  Matrix_wf m -> i < n_rows m -> j < n_columns m ->
  load (R:=R) m (Matrix_ref m i j) = Next (entry m i j).
Proof.
  intros [Hrows Hcols] Hi Hj. rewrite Matrix_ref_in_bounds by done.
  unfold entry. simpl.
  destruct (lookup_lt_is_Some_2 (cell m) i) as [line Hline]; [lia|].
  pose proof (Forall_lookup_1 _ _ _ _ Hcols Hline) as Hwide. simpl in Hwide.
  destruct (lookup_lt_is_Some_2 line j) as [x Hx]; [lia|].
  rewrite (vget_Next _ _ _ Hline). simpl. rewrite (vget_Next _ _ _ Hx).
  by rewrite (nth_lookup_Some _ _ _ _ Hline), (nth_lookup_Some _ _ _ _ Hx).
Qed.

Lemma store_in_bounds {R} (m : Matrix) i j v :
  Matrix_wf m -> i < n_rows m -> j < n_columns m ->
  store (R:=R) m (Matrix_ref m i j) v = Next (poke m i j v).
Proof.
  intros [Hrows Hcols] Hi Hj. rewrite Matrix_ref_in_bounds by done.
  unfold poke. simpl.
  destruct (lookup_lt_is_Some_2 (cell m) i) as [line Hline]; [lia|].
  pose proof (Forall_lookup_1 _ _ _ _ Hcols Hline) as Hwide. simpl in Hwide.
  rewrite (vget_Next _ _ _ Hline). simpl.
  rewrite vset_Next by lia. simpl. rewrite vset_Next by lia. simpl.
  by rewrite (nth_lookup_Some _ _ _ _ Hline).
Qed.

Lemma poke_wf (m : Matrix) i j v :
  Matrix_wf m -> i < n_rows m -> Matrix_wf (poke m i j v).
Proof.
  intros [Hrows Hcols] Hi. split; simpl.
  - by rewrite length_insert.
  - apply Forall_insert; [done|]. rewrite length_insert.
    destruct (lookup_lt_is_Some_2 (cell m) i) as [line Hline]; [lia|].
    rewrite (nth_lookup_Some _ _ _ _ Hline).
    exact (Forall_lookup_1 _ _ _ _ Hcols Hline).
Qed.

Lemma leading_line n (c c' : list (list Real)) i :
  take n c = take n c' -> i < n -> nth i c [] = nth i c' [].
Proof.
  intros Htake Hi. rewrite !nth_lookup.
  by rewrite <- (lookup_take_lt c n i), <- (lookup_take_lt c' n i), Htake.
Qed.

Lemma leading_value n (v v' : list Real) i :
  take n v = take n v' -> i < n -> v !! i = v' !! i.
Proof.
  intros Htake Hi.
  by rewrite <- (lookup_take_lt v n i), <- (lookup_take_lt v' n i), Htake.
Qed.

Lemma same_leading_rows_entry n m m' i j :
  same_leading_rows n m m' -> i < n -> entry m i j = entry m' i j.
Proof.
  intros (_ & _ & _ & _ & _ & _ & Htake) Hi. unfold entry.
  by rewrite (leading_line n _ _ i Htake Hi).
Qed.

Lemma same_leading_rows_poke n m m' i j v :
  same_leading_rows n m m' -> i < n ->
  same_leading_rows n (poke m i j v) (poke m' i j v).
Proof.
  intros (Hwf & Hwf' & Hc & Hc' & Hr & Hr' & Htake) Hi.
  repeat split; try done; try (apply poke_wf; [done|lia]).
  simpl. rewrite !take_insert_lt by done.
  by rewrite (leading_line n _ _ i Htake Hi), Htake.
Qed.

Section LeadingRows.
Context {F : RealFormat}.

(** The row update [matrix(row, k) -= matrix(column, k) * scalar] for all
    [k], lines 295-296. *)
Lemma update_row_same_leading n row column scalar m m' :
  same_leading_rows n m m' -> row < n -> column < n ->
  exec_rel (R:=list Real) (same_leading_rows n)
    (for_range n
       (fun k matrix =>
          let* y := load matrix (Matrix_ref matrix column k) in
          let* x := load matrix (Matrix_ref matrix row k) in
          store matrix (Matrix_ref matrix row k) (Rsub x (Rmul y scalar))) m)
    (for_range n
       (fun k matrix =>
          let* y := load matrix (Matrix_ref matrix column k) in
          let* x := load matrix (Matrix_ref matrix row k) in
          store matrix (Matrix_ref matrix row k) (Rsub x (Rmul y scalar))) m').
Proof.
  intros Hm Hrow Hcolumn. apply for_each_rel; [done|].
  intros k a b Hk Hab. apply elem_of_seq in Hk.
  pose proof Hab as (Hwf & Hwf' & Hc & Hc' & Hr & Hr' & Htake).
  cbv beta. rewrite !(load_in_bounds (R:=list Real)) by (done || lia). simpl.
  rewrite !(store_in_bounds (R:=list Real)) by (done || lia). simpl.
  rewrite (same_leading_rows_entry n a b column k Hab Hcolumn).
  rewrite (same_leading_rows_entry n a b row k Hab Hrow).
  by apply same_leading_rows_poke.
Qed.

Lemma eliminate_row_same_leading n column row st st' :
  same_leading_system n st st' -> column < n -> row < n ->
  exec_rel (same_leading_system n)
    (eliminate_row n column row st) (eliminate_row n column row st').
Proof.
  intros Hst Hcolumn Hrow.
  destruct st as [m equal], st' as [m' equal'].
  pose proof Hst as (Hm & Hlen & Hlen' & Htake). simpl in Hm, Hlen, Hlen', Htake.
  pose proof Hm as (Hwf & Hwf' & Hc & Hc' & Hr & Hr' & Hcells).
  unfold eliminate_row. destruct (row =? column); [done|].
  rewrite !(load_in_bounds (R:=list Real)) by (done || lia). simpl.
  rewrite <- (same_leading_rows_entry n m m' row column Hm Hrow).
  rewrite <- (same_leading_rows_entry n m m' column column Hm Hcolumn).
  destruct (isfinite (Rdiv (entry m row column) (entry m column column)));
    simpl; [|done].
  eapply exec_rel_bind;
    [apply (update_row_same_leading n row column); done|].
  intros a a' Ha.
  destruct (lookup_lt_is_Some_2 equal column) as [ec Hec]; [lia|].
  destruct (lookup_lt_is_Some_2 equal row) as [er Her]; [lia|].
  rewrite (vget_Next _ _ _ Hec). simpl. rewrite (vget_Next _ _ _ Her). simpl.
  rewrite (leading_value n _ _ _ Htake Hcolumn) in Hec.
  rewrite (leading_value n _ _ _ Htake Hrow) in Her.
  rewrite (vget_Next _ _ _ Hec). simpl. rewrite (vget_Next _ _ _ Her). simpl.
  rewrite !vset_Next by lia. simpl.
  split; [exact Ha|]. simpl. rewrite !length_insert.
  do 2 (split; [done|]).
  rewrite !take_insert_lt by done. by rewrite Htake.
Qed.

Lemma eliminate_same_leading n st st' :
  same_leading_system n st st' ->
  exec_rel (same_leading_system n) (eliminate n st) (eliminate n st').
Proof.
  intros Hst. apply for_each_rel; [done|].
  intros column a b Hcolumn Hab. apply elem_of_seq in Hcolumn.
  apply for_each_rel; [done|].
  intros row a' b' Hrow Hab'. apply elem_of_seq in Hrow.
  apply eliminate_row_same_leading; [done|lia..].
Qed.
End LeadingRows.

Section SolveLeadingRows.
Context {F : RealFormat}.

Lemma normalize_same_leading n st st' :
  same_leading_system n st st' ->
  exec_rel eq (normalize n st) (normalize n st').
Proof.
  intros (Hm & Hlen & Hlen' & Htake).
  pose proof Hm as (Hwf & Hwf' & Hc & Hc' & Hr & Hr' & Hcells).
  assert (Hloop : exec_rel (fun r r' : list Real => r = r' /\ length r = n)
                    (normalize n st) (normalize n st')).
  { apply for_each_rel; [by rewrite length_replicate|].
    intros i r r' Hi [<- Hr0]. apply elem_of_seq in Hi.
    unfold normalize_row.
    destruct (lookup_lt_is_Some_2 st.2 i) as [e He]; [lia|].
    rewrite (vget_Next _ _ _ He). simpl.
    rewrite (leading_value n _ _ _ Htake) in He by lia.
    rewrite (vget_Next _ _ _ He). simpl.
    rewrite !(load_in_bounds (R:=list Real)) by (done || lia). simpl.
    rewrite <- (same_leading_rows_entry n st.1 st'.1 i i Hm) by lia.
    destruct (isfinite (Rdiv e (entry st.1 i i))); simpl; [|done].
    rewrite !vset_Next by lia. simpl. by rewrite length_insert. }
  destruct (normalize n st), (normalize n st'); simpl in *; try done.
  by destruct Hloop.
Qed.

Lemma is_diagonal_nonzero_same_leading n m m' epsilon :
  same_leading_rows n m m' ->
  is_valid m = true -> is_valid m' = true ->
  is_diagonal_nonzero m epsilon = is_diagonal_nonzero m' epsilon.
Proof.
  intros (Hwf & Hwf' & Hc & Hc' & Hr & Hr' & Hcells) Hv Hv'.
  unfold is_diagonal_nonzero. rewrite Hv, Hv', Hc, Hc'. simpl.
  unfold for_range. erewrite for_each_ext; [done|].
  intros i [] Hi. apply elem_of_seq in Hi. simpl.
  unfold vget at 1 3.
  by rewrite <- (lookup_take_lt (cell m) n i), Hcells, lookup_take_lt by lia.
Qed.

Lemma prepare_usable_diagonal fuel m equal epsilon :
  is_valid m = true -> length equal = n_rows m ->
  is_diagonal_nonzero m epsilon = Ok true ->
  prepare fuel m equal epsilon = Next (m, equal).
Proof.
  intros Hv Hlen Hd. unfold prepare. rewrite Hv. simpl.
  by rewrite Hlen, Nat.eqb_refl, Hd.
Qed.

Lemma is_valid_dimensions (m : Matrix) :
  is_valid m = true -> 0 < n_columns m <= n_rows m.
Proof.
  unfold is_valid.
  destruct (Nat.eqb_spec (n_rows m) 0), (Nat.eqb_spec (n_columns m) 0),
    (Nat.ltb_spec (n_rows m) (n_columns m)); simpl; try done. lia.
Qed.

(** With a usable diagonal [Solve] works on the leading square block only:
    it never faults, and two systems with the same leading equations get the
    same answer. *)
Lemma Solve_same_leading fuel m m' equal equal' epsilon :
  same_leading_system (n_columns m) (m, equal) (m', equal') ->
  is_valid m = true -> is_valid m' = true ->
  length equal = n_rows m -> length equal' = n_rows m' ->
  is_diagonal_nonzero m epsilon = Ok true ->
  Solve fuel m' equal' epsilon = Solve fuel m equal epsilon /\
  exists v, Solve fuel m equal epsilon = Ok v.
Proof.
  intros Hst Hv Hv' Hlen Hlen' Hd.
  pose proof Hst as (Hm & _). simpl in Hm.
  pose proof Hm as (_ & _ & _ & Hc' & _).
  assert (Hd' : is_diagonal_nonzero m' epsilon = Ok true).
  { by rewrite <- (is_diagonal_nonzero_same_leading _ m m' epsilon Hm). }
  rewrite (Solve_prepared _ _ _ _ _
             (prepare_usable_diagonal fuel m equal epsilon Hv Hlen Hd)).
  rewrite (Solve_prepared _ _ _ _ _
             (prepare_usable_diagonal fuel m' equal' epsilon Hv' Hlen' Hd')).
  rewrite Hc'.
  pose proof (eliminate_same_leading _ _ _ Hst) as He.
  destruct (eliminate (n_columns m) (m, equal)) as [st| | |],
    (eliminate (n_columns m) (m', equal')) as [st'| | |]; simpl in He;
    try done.
  - pose proof (normalize_same_leading _ _ _ He) as Hn. simpl.
    destruct (normalize (n_columns m) st), (normalize (n_columns m) st');
      simpl in Hn; try done; subst; simpl; eauto.
  - subst. simpl. eauto.
Qed.
End SolveLeadingRows.

(** ** Overdetermined systems with five rows and four columns *)

Section NeverReturns.
Context {R : Type}.

Lemma nr_Next {A} (a : A) : never_returns (R:=R) (Next a).
Proof. by intros r. Qed.

Lemma nr_bind {A B} (e : exec R A) (k : A -> exec R B) :
  never_returns e -> (forall a, never_returns (k a)) ->
  never_returns (bind e k).
Proof.
  intros He Hk r. destruct e as [a|r'| |]; simpl; [apply Hk| |done..].
  by destruct (He r').
Qed.

Lemma nr_for_each {St} l (body : nat -> St -> exec R St) s :
  (forall i s, never_returns (body i s)) ->
  never_returns (for_each l body s).
Proof.
  intros Hbody. revert s; induction l as [|i l IH]; intros s; simpl.
  - apply nr_Next.
  - by apply nr_bind.
Qed.

Lemma nr_vget {A} (v : list A) i : never_returns (R:=R) (vget v i).
Proof. unfold vget. intros r. by destruct (v !! i). Qed.

Lemma nr_vset {A} (v : list A) i a : never_returns (R:=R) (vset v i a).
Proof. unfold vset. intros r. by destruct (i <? length v). Qed.

Lemma nr_load m ref : never_returns (R:=R) (load m ref).
Proof.
  destruct ref; simpl; [|apply nr_Next].
  apply nr_bind; [apply nr_vget|]. intros; apply nr_vget.
Qed.

Lemma nr_store m ref v : never_returns (R:=R) (store m ref v).
Proof.
  destruct ref; simpl; [|apply nr_Next].
  repeat (apply nr_bind; [first [apply nr_vget | apply nr_vset]|intros ?]).
  apply nr_Next.
Qed.

(** A loop that returns does so in some round, reached after the rounds
    before it completed. *)
Lemma for_range_Return_inv {St} n (body : nat -> St -> exec R St) s r :
  for_range n body s = Return r ->
  exists i s', i < n /\ for_range i body s = Next s' /\ body i s' = Return r.
Proof.
  induction n as [|n IH]; [done|]. rewrite for_range_S.
  destruct (for_range n body s) as [s'|r'| |] eqn:Hrun; simpl; try done.
  - intros Hbody. exists n, s'. split; [lia|]. by split.
  - intros [= ->]. destruct (IH eq_refl) as (i & s' & Hi & Hpre & Hbody).
    exists i, s'. split; [lia|]. by split.
Qed.
End NeverReturns.

Section UsableDiagonal.
Context {F : RealFormat}.

(** The elimination returns only on a scalar that is not finite. *)
Lemma eliminate_row_Return_inv n column row st r :
  eliminate_row n column row st = Return r ->
  row <> column /\
  exists a b,
    load (R:=list Real) st.1 (Matrix_ref st.1 row column) = Next a /\
    load (R:=list Real) st.1 (Matrix_ref st.1 column column) = Next b /\
    isfinite (Rdiv a b) = false.
Proof.
  destruct st as [matrix equal]. unfold eliminate_row. simpl.
  destruct (Nat.eqb_spec row column) as [|Hne]; [done|].
  pose proof (nr_load (R:=list Real) matrix (Matrix_ref matrix row column))
    as Hna.
  destruct (load matrix (Matrix_ref matrix row column)) as [a|ra| |];
    simpl; try done; [|by destruct (Hna ra)].
  pose proof (nr_load (R:=list Real) matrix
                (Matrix_ref matrix column column)) as Hnb.
  destruct (load matrix (Matrix_ref matrix column column)) as [b|rb| |];
    simpl; try done; [|by destruct (Hnb rb)].
  destruct (isfinite (Rdiv a b)) eqn:Hq; simpl.
  - intros Hrest. exfalso. revert Hrest.
    apply nr_bind; [apply nr_for_each; intros k mt|intros mt].
    + repeat (apply nr_bind; [apply nr_load|intros ?]). apply nr_store.
    + repeat (apply nr_bind; [first [apply nr_vget|apply nr_vset]|intros ?]).
      apply nr_Next.
  - intros _. split; [done|]. by exists a, b.
Qed.

(** The normalization returns only on a quotient that is not finite. *)
Lemma normalize_row_Return_inv st i result r :
  normalize_row st i result = Return r ->
  exists e d,
    vget (R:=list Real) st.2 i = Next e /\
    load (R:=list Real) st.1 (Matrix_ref st.1 i i) = Next d /\
    isfinite (Rdiv e d) = false.
Proof.
  unfold normalize_row.
  pose proof (nr_vget (R:=list Real) st.2 i) as Hne.
  destruct (vget st.2 i) as [e|re| |]; simpl; try done;
    [|by destruct (Hne re)].
  pose proof (nr_load (R:=list Real) st.1 (Matrix_ref st.1 i i)) as Hnd.
  destruct (load st.1 (Matrix_ref st.1 i i)) as [d|rd| |]; simpl; try done;
    [|by destruct (Hnd rd)].
  destruct (isfinite (Rdiv e d)) eqn:Hq; simpl.
  - intros Hrest. by destruct (nr_vset (R:=list Real) result i (Rdiv e d) r).
  - intros _. by exists e, d.
Qed.

Lemma eliminate_Return_inv n st r :
  eliminate n st = Return r -> nonfinite_scalar n st.
Proof.
  intros (column & st1 & Hcolumn & Hpre & Hbody)%for_range_Return_inv.
  apply for_range_Return_inv in Hbody as (row & st2 & Hrow & Hpre' & Hbody).
  apply eliminate_row_Return_inv in Hbody as (Hne & a & b & Ha & Hb & Hq).
  by exists column, row, st1, st2, a, b.
Qed.

Lemma normalize_Return_inv n st st' r :
  eliminate n st = Next st' -> normalize n st' = Return r ->
  nonfinite_quotient n st.
Proof.
  intros He (i & result & Hi & Hpre & Hbody)%for_range_Return_inv.
  apply normalize_row_Return_inv in Hbody as (e & d & He' & Hd & Hq).
  by exists st', i, result, e, d.
Qed.

Lemma nonfinite_scalar_Return n st :
  nonfinite_scalar n st -> eliminate n st = Return [].
Proof.
  intros (column & row & st1 & st2 & a & b &
          Hc & Hr & Hne & H1 & H2 & Ha & Hb & Hq).
  apply for_range_return_at with column st1; [done..|].
  apply for_range_return_at with row st2; [done..|].
  by apply eliminate_row_nonfinite with a b.
Qed.

Lemma nonfinite_quotient_Return n st :
  nonfinite_quotient n st ->
  exists st', eliminate n st = Next st' /\ normalize n st' = Return [].
Proof.
  intros (st' & i & result & e & d & He & Hi & Hrun & He' & Hd & Hq).
  exists st'. split; [done|].
  apply for_range_return_at with i result; [done..|].
  by apply normalize_row_nonfinite with e d.
Qed.

(** With a usable diagonal [Solve] returns, and it returns the empty
    sequence exactly when a scalar or a quotient is not finite. *)
Lemma Solve_usable_diagonal_cases
  (fuel : nat) (m : Matrix) (equal : list Real) (epsilon : Real) :
  Matrix_wf m -> is_valid m = true -> length equal = n_rows m ->
  is_diagonal_nonzero m epsilon = Ok true ->
  exists v,
    Solve fuel m equal epsilon = Ok v /\
    (v = [] <->
     nonfinite_scalar (n_columns m) (m, equal) \/
     nonfinite_quotient (n_columns m) (m, equal)) /\
    (v <> [] ->
     length v = n_columns m /\ Forall (fun x => isfinite x = true) v).
Proof.
  intros Hwf Hv Hlen Hd.
  pose proof (is_valid_dimensions m Hv) as Hdim.
  assert (Hself : same_leading_system (n_columns m) (m, equal) (m, equal)).
  { split; [|simpl; rewrite Hlen; split; [lia|split; [lia|done]]].
    simpl. do 4 (split; [done|]). split; [lia|split; [lia|done]]. }
  rewrite (Solve_prepared _ _ _ _ _
             (prepare_usable_diagonal fuel m equal epsilon Hv Hlen Hd)).
  pose proof (eliminate_same_leading _ _ _ Hself) as He.
  pose proof (roe_eliminate (n_columns m) (m, equal)) as Hroe.
  destruct (eliminate (n_columns m) (m, equal)) as [st'|r| |] eqn:Helim;
    simpl in He; try done; simpl.
  - pose proof (normalize_same_leading _ _ _ He) as Hn.
    pose proof (roe_normalize (n_columns m) st') as Hroe'.
    destruct (normalize (n_columns m) st') as [v|r| |] eqn:Hnorm;
      simpl in Hn; try done; simpl.
    + destruct (normalize_Next _ _ _ Hnorm) as [Hlv Hfv].
      exists v. split; [done|]. split; [|done].
      split.
      * intros ->. simpl in Hlv. lia.
      * intros [Hs | Hq].
        -- apply nonfinite_scalar_Return in Hs. congruence.
        -- apply nonfinite_quotient_Return in Hq as (st'' & Hst'' & Hret).
           congruence.
    + rewrite (Hroe' r eq_refl). exists []. split; [done|].
      split; [|done]. split; [|done]. intros _. right.
      by apply normalize_Return_inv with st' r.
  - rewrite (Hroe r eq_refl). exists []. split; [done|].
    split; [|done]. split; [|done]. intros _. left.
    by apply eliminate_Return_inv with r.
Qed.
End UsableDiagonal.

(** C3, as the header has it: on a well-formed 5x4 system whose leading
    diagonal is usable, [Solve] selects no row subset and always returns.
    It returns the empty sequence exactly when, on the way, a scalar of the
    elimination or a quotient of the normalization is not finite; otherwise
    it returns a solution that is not empty, four finite entries, for which
    [ErrorEstimate] over all five rows returns NaN or a nonnegative value.
    The solution is obtained from rows 0 to 3 alone: every valid system with
    four columns and the same four leading equations gets the same answer.
    [ErrorEstimate] returns NaN for the empty sequence. *)
Theorem Solve_uses_leading_rows_only {F : RealFormat}
  (fuel : nat) (m : Matrix) (equal : list Real) (epsilon : Real) :
  Matrix_wf m -> size m = (5, 4) -> length equal = 5 ->
  is_diagonal_nonzero m epsilon = Ok true ->
  (exists v,
     Solve fuel m equal epsilon = Ok v /\
     (v = [] <->
      nonfinite_scalar 4 (m, equal) \/ nonfinite_quotient 4 (m, equal)) /\
     (v <> [] ->
      length v = 4 /\ Forall (fun x => isfinite x = true) v /\
      exists e, ErrorEstimate m equal v = Ok e /\
        (e = NaN \/ Rle (Real_of_Z 0) e = true))) /\
  (forall m' equal',
     Matrix_wf m' -> is_valid m' = true -> n_columns m' = 4 ->
     length equal' = n_rows m' ->
     take 4 (cell m') = take 4 (cell m) -> take 4 equal' = take 4 equal ->
     Solve fuel m' equal' epsilon = Solve fuel m equal epsilon) /\
  ErrorEstimate m equal [] = Ok NaN.
Proof.
  intros Hwf [= Hr Hc] Hlen Hd.
  assert (Hv : is_valid m = true) by (unfold is_valid; by rewrite Hr, Hc).
  assert (Hlead : forall m' equal',
            Matrix_wf m' -> is_valid m' = true -> n_columns m' = 4 ->
            length equal' = n_rows m' ->
            take 4 (cell m') = take 4 (cell m) ->
            take 4 equal' = take 4 equal ->
            same_leading_system (n_columns m) (m, equal) (m', equal')).
  { intros m' equal' Hwf' Hv' Hc' Hlen' Hcells Hequal.
    apply is_valid_dimensions in Hv'. rewrite Hc.
    split; [|simpl; rewrite Hlen, Hlen'; repeat split; [lia|lia|done]].
    simpl. do 2 (split; [done|]). rewrite Hr, Hc, Hc'.
    repeat split; [lia|lia|done]. }
  split; [|split].
  - destruct (Solve_usable_diagonal_cases fuel m equal epsilon)
      as (v & Hsolve & Hempty & Hfull); [done|done|by rewrite Hr|done|].
    rewrite Hc in Hempty, Hfull.
    exists v. split; [done|]. split; [done|].
    intros Hne. destruct (Hfull Hne) as [Hlv Hfv].
    split; [done|]. split; [done|].
    exists (total_residual m equal v). split.
    + apply ErrorEstimate_accepts; try done; by rewrite ?Hr, ?Hc.
    + apply sign_clear_nonnegative, sum_upto_sign_clear.
      intros i. apply Rabs_sign_clear.
  - intros m' equal' Hwf' Hv' Hc' Hlen' Hcells Hequal.
    apply Solve_same_leading; [by apply Hlead|done|done| |done|done].
    by rewrite Hr.
  - apply ErrorEstimate_rejects. right. right. simpl. by rewrite Hc.
Qed.

Lemma Solve_uses_leading_rows_only_witness :
  Solve (F:=float128_t) 0
    (matrix_of (F:=float128_t)
       [[1; 0; 0; 0]; [0; 1; 0; 0]; [0; 0; 1; 0]; [0; 0; 0; 1];
        [1; 1; 1; 1]]%Z)
    (reals_of (F:=float128_t) [1; 2; 3; 4; 0]%Z)
    (magnitude_zero (F:=float128_t))
  = Ok (reals_of (F:=float128_t) [1; 2; 3; 4]%Z) /\
  ~ (nonfinite_scalar (F:=float128_t) 4
       (matrix_of (F:=float128_t)
          [[1; 0; 0; 0]; [0; 1; 0; 0]; [0; 0; 1; 0]; [0; 0; 0; 1];
           [1; 1; 1; 1]]%Z,
        reals_of (F:=float128_t) [1; 2; 3; 4; 0]%Z) \/
     nonfinite_quotient (F:=float128_t) 4
       (matrix_of (F:=float128_t)
          [[1; 0; 0; 0]; [0; 1; 0; 0]; [0; 0; 1; 0]; [0; 0; 0; 1];
           [1; 1; 1; 1]]%Z,
        reals_of (F:=float128_t) [1; 2; 3; 4; 0]%Z)) /\
  ErrorEstimate (F:=float128_t)
    (matrix_of (F:=float128_t)
       [[1; 0; 0; 0]; [0; 1; 0; 0]; [0; 0; 1; 0]; [0; 0; 0; 1];
        [1; 1; 1; 1]]%Z)
    (reals_of (F:=float128_t) [1; 2; 3; 4; 0]%Z)
    (reals_of (F:=float128_t) [1; 2; 3; 4]%Z)
  = Ok (Real_of_Z (F:=float128_t) 10).
Proof.
  destruct (Solve_uses_leading_rows_only (F:=float128_t) 0
              (matrix_of (F:=float128_t)
                 [[1; 0; 0; 0]; [0; 1; 0; 0]; [0; 0; 1; 0]; [0; 0; 0; 1];
                  [1; 1; 1; 1]]%Z)
              (reals_of (F:=float128_t) [1; 2; 3; 4; 0]%Z)
              (magnitude_zero (F:=float128_t)))
    as ((v & Hsolve & Hempty & Hfull) & _ & _);
    [by repeat constructor | reflexivity | reflexivity | reflexivity |].
  assert (Hv : v = reals_of (F:=float128_t) [1; 2; 3; 4]%Z).
  { assert (Hrun : Solve (F:=float128_t) 0
              (matrix_of (F:=float128_t)
                 [[1; 0; 0; 0]; [0; 1; 0; 0]; [0; 0; 1; 0]; [0; 0; 0; 1];
                  [1; 1; 1; 1]]%Z)
              (reals_of (F:=float128_t) [1; 2; 3; 4; 0]%Z)
              (magnitude_zero (F:=float128_t))
            = Ok (reals_of (F:=float128_t) [1; 2; 3; 4]%Z)) by reflexivity.
    rewrite Hrun in Hsolve. by injection Hsolve. }
  subst v. split; [exact Hsolve|]. split; [|reflexivity].
  intros Hnonfinite. by apply Hempty in Hnonfinite.
Defined.

(** The same system with a fifth row that overflows: [Solve] returns four
    finite entries and [ErrorEstimate] on them is NaN, so NaN has to be
    allowed beside the nonnegative values. *)
Lemma scenario_C_overflow :
  Matrix_wf (scenario_C_overflow_matrix (F:=float128_t)) /\
  size (scenario_C_overflow_matrix (F:=float128_t)) = (5, 4) /\
  is_diagonal_nonzero (scenario_C_overflow_matrix (F:=float128_t))
    (magnitude_zero (F:=float128_t)) = Ok true /\
  Solve (F:=float128_t) 0 (scenario_C_overflow_matrix (F:=float128_t))
    (scenario_C_overflow_equal (F:=float128_t))
    (magnitude_zero (F:=float128_t))
  = Ok [Real_max (F:=float128_t); SFopp (Real_max (F:=float128_t));
        Real_of_Z (F:=float128_t) 0; Real_of_Z (F:=float128_t) 0] /\
  ErrorEstimate (F:=float128_t) (scenario_C_overflow_matrix (F:=float128_t))
    (scenario_C_overflow_equal (F:=float128_t))
    [Real_max (F:=float128_t); SFopp (Real_max (F:=float128_t));
     Real_of_Z (F:=float128_t) 0; Real_of_Z (F:=float128_t) 0]
  = Ok NaN.
Proof. split; [by repeat constructor|]. by repeat split. Qed.

(** C3, as stated, fails: in the system [scenario_C_matrix] the solution
    [1, 1, 1, 1] fits rows 0 to 3 exactly and not row 4, the leading diagonal
    is all ones, and after column 0 has been eliminated the pivot of column 1
    is zero.  [Solve] returns the empty sequence, for which [ErrorEstimate]
    returns NaN and not a value that is at least 0. *)
Lemma scenario_C_counterexample :
  Matrix_wf (scenario_C_matrix (F:=float128_t)) /\
  size (scenario_C_matrix (F:=float128_t)) = (5, 4) /\
  length (scenario_C_equal (F:=float128_t)) = 5 /\
  map (solves_row (F:=float128_t) (scenario_C_matrix (F:=float128_t))
         (scenario_C_equal (F:=float128_t))
         (scenario_C_solution (F:=float128_t))) (seq 0 5)
  = [true; true; true; true; false] /\
  (forall fuel,
     Solve (F:=float128_t) fuel (scenario_C_matrix (F:=float128_t))
       (scenario_C_equal (F:=float128_t)) (magnitude_zero (F:=float128_t))
     = Ok []) /\
  ErrorEstimate (F:=float128_t) (scenario_C_matrix (F:=float128_t))
    (scenario_C_equal (F:=float128_t)) [] = Ok NaN /\
  Rle (Real_of_Z (F:=float128_t) 0) NaN = false.
Proof.
  split; [by repeat constructor|].
  repeat split; try (intros fuel); by vm_compute.
Qed.

Lemma nonfinite_quotient_gives_empty_witness :
  Solve (F:=float128_t) 0 (matrix_of (F:=float128_t) [[1; 1]; [1; 1]]%Z)
    (reals_of (F:=float128_t) [1; 1]%Z) (magnitude_zero (F:=float128_t))
  = Ok [].
Proof.
  eapply (proj1 (nonfinite_quotient_gives_empty (F:=float128_t) 0
                   (matrix_of (F:=float128_t) [[1; 1]; [1; 1]]%Z)
                   (reals_of (F:=float128_t) [1; 1]%Z)
                   (magnitude_zero (F:=float128_t))))
    with (column := 1) (row := 0);
    [reflexivity | simpl; lia | simpl; lia | lia
    | reflexivity | reflexivity | reflexivity | reflexivity | reflexivity].
Defined.

(** * The rest of the header *)

(** ** Construction and access *)

Lemma Matrix_init_wf {F : RealFormat} rows columns :
  Matrix_wf (Matrix_init rows columns).
Proof.
  unfold Matrix_init. destruct (rows <? columns); [by split|].
  split; simpl; [by rewrite length_replicate|].
  apply Forall_replicate. by rewrite length_replicate.
Qed.

(** X1: a matrix constructed with at least as many rows as columns has
    these dimensions, satisfies the class invariant, is valid exactly when
    it has a column, and reads as zero inside its bounds and as NaN
    outside. *)
Theorem Matrix_init_zero_grid {F : RealFormat} (rows columns : nat) :
  columns <= rows ->
  Matrix_wf (Matrix_init rows columns) /\
  size (Matrix_init rows columns) = (rows, columns) /\
  (is_valid (Matrix_init rows columns) = true <-> 0 < columns) /\
  (forall i j,
     Matrix_get (Matrix_init rows columns) i j =
     Ok (if (i <? rows) && (j <? columns) then Real_of_Z 0 else NaN)).
Proof.
  intros Hle. split; [apply Matrix_init_wf|].
  unfold Matrix_init. destruct (Nat.ltb_spec rows columns); [lia|].
  split; [done|]. split.
  - unfold is_valid. simpl.
    destruct (Nat.eqb_spec rows 0), (Nat.eqb_spec columns 0),
      (Nat.ltb_spec rows columns); simpl; split; (done || lia).
  - intros i j. unfold Matrix_get. simpl.
    destruct (Nat.leb_spec rows i), (Nat.ltb_spec i rows); try lia;
      simpl; [done|].
    destruct (Nat.leb_spec columns j), (Nat.ltb_spec j columns); try lia;
      simpl; [done|].
    rewrite (vget_Next _ _ (replicate columns (Real_of_Z 0)))
      by (by apply lookup_replicate_2).
    simpl. by rewrite (vget_Next _ _ (Real_of_Z 0))
      by (by apply lookup_replicate_2).
Qed.

Lemma Matrix_init_zero_grid_witness :
  size (Matrix_init (F:=float128_t) 5 4) = (5, 4) /\
  Matrix_get (Matrix_init (F:=float128_t) 5 4) 4 3
  = Ok (Real_of_Z (F:=float128_t) 0).
Proof.
  destruct (Matrix_init_zero_grid (F:=float128_t) 5 4) as (_ & Hs & _ & Hg);
    [lia|]. split; [exact Hs|exact (Hg 4 3)].
Defined.

Lemma entry_out_of_bounds (m : Matrix) i j :
  Matrix_wf m -> n_rows m <= i \/ n_columns m <= j -> entry m i j = NaN.
Proof.
  intros [Hrows Hcols] Hout. unfold entry.
  destruct (nth_lookup_or_length (cell m) i []) as [Hline|Hlen].
  - pose proof (Forall_lookup_1 _ _ _ _ Hcols Hline) as Hwide.
    simpl in Hwide. apply lookup_lt_Some in Hline.
    apply nth_overflow. lia.
  - rewrite (nth_overflow (cell m)) by lia. by destruct j.
Qed.

Lemma Matrix_get_wf (m : Matrix) (i j : nat) :
  Matrix_wf m ->
  Matrix_get m i j =
  Ok (if (i <? n_rows m) && (j <? n_columns m) then entry m i j else NaN).
Proof.
  intros Hwf.
  destruct (Nat.ltb_spec i (n_rows m)) as [Hi|Hi],
    (Nat.ltb_spec j (n_columns m)) as [Hj|Hj]; simpl;
    try (by apply Matrix_get_in_bounds); unfold Matrix_get.
  - apply Nat.leb_le in Hj as ->. by rewrite orb_true_r.
  - by apply Nat.leb_le in Hi as ->.
  - by apply Nat.leb_le in Hi as ->.
Qed.

(** X2: on a matrix that satisfies the class invariant the const accessor
    never indexes a vector out of range: it returns the stored value inside
    the bounds and NaN outside. *)
Theorem Matrix_get_checks_bounds (m : Matrix) (i j : nat) :
  Matrix_wf m ->
  Matrix_get m i j =
  Ok (if (i <? n_rows m) && (j <? n_columns m) then entry m i j else NaN).
Proof.
  intros Hwf. rewrite Matrix_get_wf by done.
  by destruct ((i <? n_rows m) && (j <? n_columns m)).
Qed.

Lemma Matrix_get_checks_bounds_witness :
  Matrix_get (matrix_of (F:=float128_t) [[1; 2]; [3; 4]]%Z) 1 2 = Ok NaN.
Proof.
  apply (Matrix_get_checks_bounds
           (matrix_of (F:=float128_t) [[1; 2]; [3; 4]]%Z) 1 2).
  by repeat constructor.
Defined.

Lemma entry_poke_eq (m : Matrix) i j v :
  Matrix_wf m -> i < n_rows m -> j < n_columns m ->
  entry (poke m i j v) i j = v.
Proof.
  intros [Hrows Hcols] Hi Hj. unfold entry, poke. simpl.
  destruct (lookup_lt_is_Some_2 (cell m) i) as [line Hline]; [lia|].
  pose proof (Forall_lookup_1 _ _ _ _ Hcols Hline) as Hwide. simpl in Hwide.
  rewrite (nth_lookup_Some _ _ _ _ Hline).
  erewrite (nth_lookup_Some (<[i:=_]> (cell m)));
    [|apply list_lookup_insert_eq; lia].
  apply nth_lookup_Some, list_lookup_insert_eq. lia.
Qed.

Lemma entry_poke_ne (m : Matrix) i j i' j' v :
  (i', j') <> (i, j) -> entry (poke m i j v) i' j' = entry m i' j'.
Proof.
  intros Hne. unfold entry, poke. simpl.
  destruct (decide (i' = i)) as [->|Hi].
  - destruct (decide (i < length (cell m))) as [Hlt|Hge].
    + erewrite (nth_lookup_Some (<[i:=_]> (cell m)));
        [|by apply list_lookup_insert_eq].
      rewrite !(nth_lookup (<[j:=v]> _)), list_lookup_insert_ne, <- nth_lookup;
        [done|congruence].
    + by rewrite list_insert_ge by lia.
  - by rewrite !(nth_lookup _ i'), list_lookup_insert_ne by done.
Qed.

(** X3: a write through the accessor inside the bounds is read back by the
    const accessor at that coordinate, leaves every other coordinate, both
    dimensions and the scratch member as they were, and keeps the class
    invariant. *)
Theorem write_then_read (R : Type) (m : Matrix) (i j : nat) (v : Real) :
  Matrix_wf m -> i < n_rows m -> j < n_columns m ->
  exists m',
    store (R:=R) m (Matrix_ref m i j) v = Next m' /\
    Matrix_wf m' /\ size m' = size m /\ dummy m' = dummy m /\
    Matrix_get m' i j = Ok v /\
    (forall i' j', (i', j') <> (i, j) -> Matrix_get m' i' j' = Matrix_get m i' j').
Proof.
  intros Hwf Hi Hj. exists (poke m i j v).
  pose proof (poke_wf m i j v Hwf Hi) as Hwf'.
  split; [by apply store_in_bounds|]. do 3 (split; [done|]). split.
  - rewrite Matrix_get_in_bounds by done. by rewrite entry_poke_eq.
  - intros i' j' Hne. rewrite !Matrix_get_wf by done. simpl.
    by rewrite entry_poke_ne.
Qed.

Lemma write_then_read_witness :
  exists m',
    store (R:=unit) (Matrix_init (F:=float128_t) 2 2)
      (Matrix_ref (Matrix_init (F:=float128_t) 2 2) 1 0)
      (Real_of_Z (F:=float128_t) 7) = Next m' /\
    Matrix_get m' 1 0 = Ok (Real_of_Z (F:=float128_t) 7).
Proof.
  destruct (write_then_read unit (Matrix_init (F:=float128_t) 2 2) 1 0
              (Real_of_Z (F:=float128_t) 7))
    as (m' & Hs & _ & _ & _ & Hg & _);
    [by repeat constructor | simpl; lia | simpl; lia |].
  exists m'. by split.
Defined.

(** X4: the scratch member is shared by all coordinates out of bounds.
    What was assigned through the accessor at one such coordinate is what the
    accessor of the same (non-const) matrix yields at any other one, while
    the const accessor keeps answering NaN. *)
Theorem scratch_cell_is_shared
  (R : Type) (m : Matrix) (i j i' j' : nat) (v : Real) :
  n_rows m <= i \/ n_columns m <= j ->
  n_rows m <= i' \/ n_columns m <= j' ->
  exists m',
    store (R:=R) m (Matrix_ref m i j) v = Next m' /\
    load (R:=R) m' (Matrix_ref m' i' j') = Next v /\
    Matrix_get m' i' j' = Ok NaN.
Proof.
  intros Hout Hout'. exists (with_dummy m v).
  rewrite (Matrix_ref_out_of_bounds _ _ _ Hout).
  rewrite (Matrix_ref_out_of_bounds (with_dummy m v) _ _ Hout').
  repeat split. unfold Matrix_get. simpl.
  destruct Hout' as [H|H]; apply Nat.leb_le in H; rewrite H; [done|].
  by rewrite orb_true_r.
Qed.

Lemma scratch_cell_is_shared_witness :
  exists m',
    store (R:=unit) (Matrix_init (F:=float128_t) 2 2)
      (Matrix_ref (Matrix_init (F:=float128_t) 2 2) 2 0)
      (Real_of_Z (F:=float128_t) 7) = Next m' /\
    load (R:=unit) m' (Matrix_ref m' 0 5) = Next (Real_of_Z (F:=float128_t) 7) /\
    Matrix_get m' 0 5 = Ok NaN.
Proof.
  apply (scratch_cell_is_shared unit (Matrix_init (F:=float128_t) 2 2)
           2 0 0 5 (Real_of_Z (F:=float128_t) 7));
    [left | right]; simpl; lia.
Defined.

(** ** set_row and set_column *)

(** The part of [set_row] after its checks. *)
Lemma set_row_accepted (m : Matrix) index (data : list Real) :
  0 < n_columns m -> length data = n_columns m ->
  Forall (fun x => isfinite x = true) data ->
  set_row m index data =
  run (let* cell' := vset (cell m) index data in Next (with_cell m cell')).
Proof.
  intros Hpos Hlen Hfin. unfold set_row.
  destruct (Nat.eqb_spec (n_columns m) 0); [lia|].
  rewrite (proj2 (Nat.eqb_eq _ _) Hlen). simpl.
  unfold for_range. rewrite all_finite_loop by (simpl; lia).
  by rewrite drop_0, (forallb_isfinite_true _ Hfin).
Qed.

(** X5: [set_row] with a row index in range and a finite data vector of
    the right length replaces that row by the data and nothing else; the
    class invariant is kept. *)
Theorem set_row_replaces_row (m : Matrix) (index : nat) (data : list Real) :
  Matrix_wf m -> index < n_rows m ->
  length data = n_columns m ->
  Forall (fun x => isfinite x = true) data ->
  exists m',
    set_row m index data = Ok m' /\
    Matrix_wf m' /\ size m' = size m /\ dummy m' = dummy m /\
    cell m' !! index = Some data /\
    (forall i, i <> index -> cell m' !! i = cell m !! i).
Proof.
  intros [Hrows Hcols] Hindex Hlen Hfin.
  exists (with_cell m (<[index:=data]> (cell m))).
  assert (Hins : cell (with_cell m (<[index:=data]> (cell m))) !! index
                 = Some data).
  { apply list_lookup_insert_eq. lia. }
  split; [|split; [|do 3 (split; [done|])]].
  - destruct (Nat.eq_dec (n_columns m) 0) as [Hz|Hnz].
    + unfold set_row. rewrite Hz. simpl.
      destruct (lookup_lt_is_Some_2 (cell m) index) as [line Hline]; [lia|].
      pose proof (Forall_lookup_1 _ _ _ _ Hcols Hline) as Hwide.
      simpl in Hwide. rewrite Hz in Hwide, Hlen.
      apply nil_length_inv in Hwide, Hlen. subst.
      unfold with_cell. rewrite list_insert_id by done. by destruct m.
    + rewrite set_row_accepted by (done || lia).
      by rewrite vset_Next by lia.
  - split; simpl; [by rewrite length_insert|by apply Forall_insert].
  - intros i Hne. simpl. by apply list_lookup_insert_ne.
Qed.

Lemma set_row_replaces_row_witness :
  exists m',
    set_row (Matrix_init (F:=float128_t) 2 2) 1
      (reals_of (F:=float128_t) [3; 4]%Z) = Ok m' /\
    cell m' !! 1 = Some (reals_of (F:=float128_t) [3; 4]%Z).
Proof.
  destruct (set_row_replaces_row (Matrix_init (F:=float128_t) 2 2) 1
              (reals_of (F:=float128_t) [3; 4]%Z))
    as (m' & Hs & _ & _ & _ & Hg & _);
    [by repeat constructor | simpl; lia | reflexivity | by repeat constructor|].
  exists m'. by split.
Defined.

(** X6: [set_row] never compares its row index with the row count.  With
    data it accepts and a row index at or beyond the row count, the
    assignment [cell[index] = data] is out of range. *)
Theorem set_row_index_is_unchecked (m : Matrix) (index : nat) (data : list Real) :
  Matrix_wf m -> 0 < n_columns m -> n_rows m <= index ->
  length data = n_columns m ->
  Forall (fun x => isfinite x = true) data ->
  set_row m index data = Undefined.
Proof.
  intros [Hrows Hcols] Hpos Hindex Hlen Hfin.
  rewrite set_row_accepted by done. by rewrite vset_Fault by lia.
Qed.

Lemma set_row_index_is_unchecked_witness :
  set_row (Matrix_init (F:=float128_t) 2 2) 2
    (reals_of (F:=float128_t) [3; 4]%Z) = Undefined.
Proof.
  apply (set_row_index_is_unchecked (Matrix_init (F:=float128_t) 2 2) 2
           (reals_of (F:=float128_t) [3; 4]%Z));
    [by repeat constructor | simpl; lia | simpl; lia | reflexivity
    | by repeat constructor].
Defined.

(** The part of [set_column] after its checks. *)
Lemma set_column_accepted (m : Matrix) index (data : list Real) :
  0 < n_rows m -> length data = n_rows m ->
  Forall (fun x => isfinite x = true) data ->
  set_column m index data =
  run (let* cell' := for_range (n_rows m)
                       (fun i c =>
                          let* x := vget data i in
                          let* line := vget c i in
                          let* line' := vset line index x in
                          vset c i line') (cell m) in
       Next (with_cell m cell')).
Proof.
  intros Hpos Hlen Hfin. unfold set_column.
  destruct (Nat.eqb_spec (n_rows m) 0); [lia|].
  rewrite (proj2 (Nat.eqb_eq _ _) Hlen). simpl.
  unfold for_range at 1. rewrite all_finite_loop by (simpl; lia).
  by rewrite drop_0, (forallb_isfinite_true _ Hfin).
Qed.

(** X7: [set_column] with a column index in range and a finite data vector
    of the right length keeps the class invariant and the dimensions; the
    const accessor then reads the data in that column and the former values
    in every other column. *)
Theorem set_column_replaces_column
  (m : Matrix) (index : nat) (data : list Real) :
  Matrix_wf m -> index < n_columns m ->
  length data = n_rows m ->
  Forall (fun x => isfinite x = true) data ->
  exists m',
    set_column m index data = Ok m' /\
    Matrix_wf m' /\ size m' = size m /\ dummy m' = dummy m /\
    (forall i j, i < n_rows m -> j < n_columns m ->
       Matrix_get m' i j =
       if j =? index then Ok (nth i data NaN) else Matrix_get m i j).
Proof.
  intros Hwf Hindex Hlen Hfin. pose proof Hwf as [Hrows Hcols].
  destruct (Nat.eq_dec (n_rows m) 0) as [Hz|Hnz].
  { exists m. unfold set_column. rewrite Hz. simpl.
    repeat split; try done. intros; lia. }
  exists (with_cell m (zip_with (fun line x => <[index:=x]> line) (cell m) data)).
  assert (Hlook : forall i line x,
            cell m !! i = Some line -> data !! i = Some x ->
            zip_with (fun line x => <[index:=x]> line) (cell m) data !! i
            = Some (<[index:=x]> line)).
  { intros i line x Hline Hx. rewrite lookup_zip_with, Hline. simpl.
    by rewrite Hx. }
  assert (Hwf' : Matrix_wf
            (with_cell m
               (zip_with (fun line x => <[index:=x]> line) (cell m) data))).
  { split; simpl.
    - rewrite length_zip_with. lia.
    - apply Forall_lookup_2. intros i line'.
      rewrite lookup_zip_with_Some. intros (line & x & -> & Hline & _).
      rewrite length_insert.
      exact (Forall_lookup_1 _ _ _ _ Hcols Hline). }
  split; [|do 3 (split; [done|])].
  - rewrite set_column_accepted by (done || lia).
    rewrite <- Hrows. rewrite set_column_loop; [|lia|lia|].
    + simpl. rewrite drop_all, app_nil_r, firstn_all.
      rewrite <- Hrows in Hlen. by rewrite <- Hlen, firstn_all.
    + eapply Forall_impl; [exact Hcols|]. simpl. intros line ->. done.
  - intros i j Hi Hj.
    rewrite Matrix_get_in_bounds by done.
    destruct (lookup_lt_is_Some_2 (cell m) i) as [line Hline]; [lia|].
    destruct (lookup_lt_is_Some_2 data i) as [x Hx]; [lia|].
    pose proof (Forall_lookup_1 _ _ _ _ Hcols Hline) as Hwide.
    simpl in Hwide.
    unfold entry. simpl.
    rewrite (nth_lookup_Some _ _ _ _ (Hlook i line x Hline Hx)).
    destruct (Nat.eqb_spec j index) as [->|Hne].
    + rewrite (nth_lookup_Some _ _ _ _ Hx).
      f_equal. apply nth_lookup_Some, list_lookup_insert_eq. lia.
    + rewrite Matrix_get_in_bounds by done. unfold entry.
      rewrite (nth_lookup_Some _ _ _ _ Hline).
      by rewrite !(nth_lookup _ j), list_lookup_insert_ne by done.
Qed.

Lemma set_column_replaces_column_witness :
  exists m',
    set_column (Matrix_init (F:=float128_t) 2 2) 1
      (reals_of (F:=float128_t) [3; 4]%Z) = Ok m' /\
    Matrix_get m' 1 1 = Ok (Real_of_Z (F:=float128_t) 4).
Proof.
  destruct (set_column_replaces_column (Matrix_init (F:=float128_t) 2 2) 1
              (reals_of (F:=float128_t) [3; 4]%Z))
    as (m' & Hs & _ & _ & _ & Hg);
    [by repeat constructor | simpl; lia | reflexivity | by repeat constructor|].
  exists m'. split; [exact Hs|]. apply (Hg 1 1); simpl; lia.
Defined.

Lemma forallb_isfinite_Forall (data : list Real) :
  forallb isfinite data = true -> Forall (fun x => isfinite x = true) data.
Proof.
  induction data as [|x data IH]; simpl; [by constructor|].
  intros [Hx Hdata]%andb_true_iff. constructor; [done|by apply IH].
Qed.

Lemma set_row_keeps_finite (m : Matrix) index data m' :
  Matrix_finite m -> set_row m index data = Ok m' -> Matrix_finite m'.
Proof.
  intros Hfin. unfold set_row.
  destruct (n_columns m =? 0); simpl; [by intros [= <-]|].
  destruct (Nat.eqb_spec (length data) (n_columns m)) as [Hlen|];
    simpl; [|by intros [= <-]].
  unfold for_range. rewrite all_finite_loop by (simpl; lia).
  rewrite drop_0. destruct (forallb isfinite data) eqn:Hdata;
    simpl; [|by intros [= <-]].
  unfold vset. destruct (index <? length (cell m)); simpl; [|done].
  intros [= <-]. apply Forall_insert; [done|].
  by apply forallb_isfinite_Forall.
Qed.

Lemma for_each_Return_inv {R St} (l : list nat)
  (body : nat -> St -> exec R St) s r :
  for_each l body s = Return r ->
  exists i s', i ∈ l /\ body i s' = Return r.
Proof.
  revert s; induction l as [|i l IH]; intros s; simpl; [done|].
  destruct (body i s) as [s1|r1| |] eqn:Hs; simpl; try done.
  - intros (i' & s' & Hi & Hb)%IH. exists i', s'. split; [by right|done].
  - intros [= ->]. exists i, s. split; [by left|done].
Qed.

Lemma set_column_keeps_finite (m : Matrix) index data m' :
  Matrix_finite m -> set_column m index data = Ok m' -> Matrix_finite m'.
Proof.
  intros Hfin. unfold set_column.
  destruct (n_rows m =? 0); simpl; [by intros [= <-]|].
  destruct (Nat.eqb_spec (length data) (n_rows m)) as [Hlen|];
    simpl; [|by intros [= <-]].
  unfold for_range at 1. rewrite all_finite_loop by (simpl; lia).
  rewrite drop_0. destruct (forallb isfinite data) eqn:Hdata;
    simpl; [|by intros [= <-]].
  apply forallb_isfinite_Forall in Hdata.
  destruct (for_range _ _ _) as [c|r| |] eqn:Hloop; simpl; try done.
  2:{ apply for_each_Return_inv in Hloop as (i & s' & _ & Hbody).
      unfold vget, vset in Hbody.
      destruct (data !! i); simpl in Hbody; [|done].
      destruct (s' !! i) as [line|]; simpl in Hbody; [|done].
      destruct (index <? length line); simpl in Hbody; [|done].
      by destruct (i <? length s'). }
  intros [= <-]. unfold Matrix_finite. simpl.
  revert Hloop. unfold for_range.
  apply (for_each_Next_invariant
           (fun c => Forall (Forall (fun x => isfinite x = true)) c));
    [done|].
  intros i s s' _ Hs. unfold vget, vset.
  destruct (data !! i) as [x|] eqn:Hx; simpl; [|done].
  destruct (s !! i) as [line|] eqn:Hline; simpl; [|done].
  destruct (index <? length line); simpl; [|done].
  destruct (i <? length s); simpl; [|done].
  intros [= <-]. apply Forall_insert; [done|].
  apply Forall_insert.
  - exact (Forall_lookup_1 _ _ _ _ Hs Hline).
  - exact (Forall_lookup_1 _ _ _ _ Hdata Hx).
Qed.

(** X8: the constructor stores finite values only, and whatever [set_row]
    and [set_column] do to a matrix of finite values, with any index and any
    data, the matrix they leave holds finite values only. *)
Theorem stored_values_stay_finite {F : RealFormat} (m : Matrix) :
  Matrix_finite m ->
  (forall rows columns, Matrix_finite (Matrix_init rows columns)) /\
  (forall index data m', set_row m index data = Ok m' -> Matrix_finite m') /\
  (forall index data m', set_column m index data = Ok m' -> Matrix_finite m').
Proof.
  intros Hfin. split; [|split].
  - intros rows columns. unfold Matrix_init, Matrix_finite.
    destruct (rows <? columns); simpl; [by constructor|].
    apply Forall_replicate. by apply Forall_replicate.
  - intros index data m'. by apply set_row_keeps_finite.
  - intros index data m'. by apply set_column_keeps_finite.
Qed.

Lemma stored_values_stay_finite_witness :
  exists m',
    set_row (Matrix_init (F:=float128_t) 2 2) 1
      (reals_of (F:=float128_t) [3; 4]%Z) = Ok m' /\
    Matrix_finite m'.
Proof.
  eexists. split; [reflexivity|].
  assert (Hfin : Matrix_finite (Matrix_init (F:=float128_t) 2 2))
    by (by repeat constructor).
  apply (proj1 (proj2 (stored_values_stay_finite (F:=float128_t)
                         (Matrix_init (F:=float128_t) 2 2) Hfin))
           1 (reals_of (F:=float128_t) [3; 4]%Z)).
  reflexivity.
Defined.

(** ** is_diagonal_nonzero *)

(** A loop that only tests and returns. *)
Lemma check_loop {R} (r : R) (test : nat -> bool) (l : list nat) :
  for_each l (fun i (_ : unit) => if test i then Return r else Next tt) tt =
  if forallb (fun i => negb (test i)) l then Next tt else Return r.
Proof.
  induction l as [|i l IH]; simpl; [done|].
  destruct (test i); simpl; [done|]. apply IH.
Qed.

Lemma Rlt_NaN (x : Real) : Rlt x NaN = false.
Proof. by destruct x. Qed.

Lemma is_diagonal_nonzero_result (m : Matrix) (epsilon : Real) :
  Matrix_wf m ->
  is_diagonal_nonzero m epsilon =
  Ok (is_valid m &&
      forallb (fun i => negb (Rlt (Rabs (entry m i i)) epsilon))
        (seq 0 (n_columns m))).
Proof.
  intros Hwf. unfold is_diagonal_nonzero.
  destruct (is_valid m) eqn:Hv; simpl; [|done].
  apply is_valid_dimensions in Hv.
  pose proof Hwf as [Hrows Hcols].
  unfold for_range.
  rewrite (for_each_ext _ _
             (fun i (_ : unit) =>
                if Rlt (Rabs (entry m i i)) epsilon then Return false
                else Next tt)).
  2:{ intros i [] Hi. apply elem_of_seq in Hi.
      destruct (lookup_lt_is_Some_2 (cell m) i) as [line Hline]; [lia|].
      pose proof (Forall_lookup_1 _ _ _ _ Hcols Hline) as Hwide.
      simpl in Hwide.
      destruct (lookup_lt_is_Some_2 line i) as [x Hx]; [lia|].
      rewrite (vget_Next _ _ _ Hline). simpl.
      rewrite (vget_Next _ _ _ Hx). simpl.
      replace x with (entry m i i); [reflexivity|]. unfold entry.
      by rewrite (nth_lookup_Some _ _ _ _ Hline),
        (nth_lookup_Some _ _ _ _ Hx). }
  rewrite (check_loop false (fun i => Rlt (Rabs (entry m i i)) epsilon)).
  by destruct (forallb _ _).
Qed.

(** X9: on a matrix that satisfies the class invariant [is_diagonal_nonzero]
    never indexes out of range, and answers true exactly when the matrix is
    valid and no entry of the leading diagonal has a magnitude below epsilon.
    A comparison with NaN is false, so with epsilon NaN every valid matrix
    passes. *)
Theorem is_diagonal_nonzero_closed_form (m : Matrix) (epsilon : Real) :
  Matrix_wf m ->
  is_diagonal_nonzero m epsilon =
  Ok (is_valid m &&
      forallb (fun i => negb (Rlt (Rabs (entry m i i)) epsilon))
        (seq 0 (n_columns m))) /\
  is_diagonal_nonzero m NaN = Ok (is_valid m).
Proof.
  intros Hwf. split; [by apply is_diagonal_nonzero_result|].
  rewrite is_diagonal_nonzero_result by done.
  assert (forallb (fun i => negb (Rlt (Rabs (entry m i i)) NaN))
            (seq 0 (n_columns m)) = true) as ->.
  { apply forallb_forall. intros i _. by rewrite Rlt_NaN. }
  by rewrite andb_true_r.
Qed.

Lemma is_diagonal_nonzero_closed_form_witness :
  is_diagonal_nonzero (matrix_of (F:=float128_t) [[0; 1]; [1; 0]]%Z) NaN
  = Ok true.
Proof.
  apply (is_diagonal_nonzero_closed_form
           (matrix_of (F:=float128_t) [[0; 1]; [1; 0]]%Z) NaN).
  by repeat constructor.
Defined.

(** ** The candidate rows *)

Lemma candidates_S (m : Matrix) epsilon rows c :
  candidates m epsilon (S rows) c =
  candidates m epsilon rows c ++
  (if Rge (Rabs (entry m rows c)) epsilon then [rows] else []).
Proof.
  unfold candidates. rewrite seq_S, List.filter_app. simpl.
  by destruct (Rge _ _).
Qed.

Lemma candidates_length (m : Matrix) epsilon rows c :
  length (candidates m epsilon rows c) <= rows.
Proof.
  unfold candidates.
  etransitivity; [apply List.filter_length_le|]. by rewrite length_seq.
Qed.

(** The inner loop of lines 228-230, on column [column]. *)
Lemma collect_column (m : Matrix) epsilon column rows
  (nze_list : list (list nat)) l0 :
  Matrix_wf m -> column < n_columns m -> rows <= n_rows m ->
  nze_list !! column = Some l0 ->
  for_range (R:=list Real) rows
    (fun row nze_list =>
       let* x := load m (Matrix_ref m row column) in
       if Rge (Rabs x) epsilon
       then
         let* l := vget nze_list column in
         vset nze_list column (l ++ [row])
       else Next nze_list) nze_list =
  Next (<[column := l0 ++ candidates m epsilon rows column]> nze_list).
Proof.
  intros Hwf Hcolumn Hrows Hl0.
  pose proof (lookup_lt_Some _ _ _ Hl0) as Hlen.
  induction rows as [|rows IH].
  - unfold for_range. simpl. rewrite app_nil_r.
    by rewrite list_insert_id.
  - rewrite for_range_S, IH by lia. simpl.
    rewrite (load_in_bounds (R:=list Real)) by (done || lia). simpl.
    rewrite candidates_S.
    destruct (Rge (Rabs (entry m rows column)) epsilon).
    + rewrite (vget_Next _ _ (l0 ++ candidates m epsilon rows column))
        by (by apply list_lookup_insert_eq).
      simpl. rewrite vset_Next by (by rewrite length_insert).
      by rewrite list_insert_insert_eq, app_assoc.
    + by rewrite app_nil_r.
Qed.

Lemma collect_nze_from (m : Matrix) epsilon c k :
  Matrix_wf m -> c + k = n_columns m ->
  for_each (R:=list Real) (seq c k)
    (fun column nze_list =>
       let* nze_list :=
         for_range (n_rows m)
           (fun row nze_list =>
              let* x := load m (Matrix_ref m row column) in
              if Rge (Rabs x) epsilon
              then
                let* l := vget nze_list column in
                vset nze_list column (l ++ [row])
              else Next nze_list) nze_list in
       let* l := vget nze_list column in
       if length l =? 0 then Return [] else Next nze_list)
    (map (candidates m epsilon (n_rows m)) (seq 0 c) ++ replicate k []) =
  if forallb
       (fun c => negb (length (candidates m epsilon (n_rows m) c) =? 0))
       (seq c k)
  then Next (map (candidates m epsilon (n_rows m)) (seq 0 (c + k)))
  else Return [].
Proof.
  intros Hwf. revert c; induction k as [|k IH]; intros c Hck; simpl.
  - by rewrite app_nil_r, Nat.add_0_r.
  - assert (Hpre : length (map (candidates m epsilon (n_rows m)) (seq 0 c))
                   = c) by (by rewrite length_map, length_seq).
    rewrite (collect_column m epsilon c (n_rows m) _ []);
      [|done|lia|lia|].
    2:{ rewrite lookup_app_r by lia. by rewrite Hpre, Nat.sub_diag. }
    simpl.
    rewrite insert_app_r_alt by lia. rewrite Hpre, Nat.sub_diag. simpl.
    rewrite (vget_Next _ _ (candidates m epsilon (n_rows m) c)).
    2:{ rewrite lookup_app_r by lia. by rewrite Hpre, Nat.sub_diag. }
    simpl.
    destruct (length (candidates m epsilon (n_rows m) c) =? 0); simpl;
      [done|].
    replace (map (candidates m epsilon (n_rows m)) (seq 0 c) ++
             candidates m epsilon (n_rows m) c :: replicate k [])
      with (map (candidates m epsilon (n_rows m)) (seq 0 (S c)) ++
            replicate k []).
    2:{ by rewrite seq_S, map_app, <- app_assoc. }
    rewrite IH by lia. by rewrite Nat.add_succ_r.
Qed.

Lemma collect_nze_result (m : Matrix) (epsilon : Real) :
  Matrix_wf m ->
  collect_nze m epsilon (n_rows m) (n_columns m) =
  if forallb
       (fun c => negb (length (candidates m epsilon (n_rows m) c) =? 0))
       (seq 0 (n_columns m))
  then Next (map (candidates m epsilon (n_rows m)) (seq 0 (n_columns m)))
  else Return [].
Proof.
  intros Hwf.
  exact (collect_nze_from m epsilon 0 (n_columns m) Hwf eq_refl).
Qed.

(** X10: on a matrix that satisfies the class invariant, the first step of
    the pivot selection never indexes out of range.  It returns the empty
    solution as soon as a column has no entry of magnitude at least epsilon
    and otherwise yields, for every column, exactly the rows whose entry has
    magnitude at least epsilon, in increasing order. *)
Theorem collect_nze_closed_form (m : Matrix) (epsilon : Real) :
  Matrix_wf m ->
  collect_nze m epsilon (n_rows m) (n_columns m) =
  if forallb
       (fun c => negb (length (candidates m epsilon (n_rows m) c) =? 0))
       (seq 0 (n_columns m))
  then Next (map (candidates m epsilon (n_rows m)) (seq 0 (n_columns m)))
  else Return [].
Proof.
  intros Hwf. unfold collect_nze, for_range.
  pose proof (collect_nze_from m epsilon 0 (n_columns m) Hwf eq_refl) as H.
  simpl in H. exact H.
Qed.

Lemma collect_nze_closed_form_witness :
  collect_nze (matrix_of (F:=float128_t) [[0; 1]; [1; 1]]%Z)
    (magnitude_zero (F:=float128_t)) 2 2 = Next [[1]; [0; 1]].
Proof.
  apply (collect_nze_closed_form
           (matrix_of (F:=float128_t) [[0; 1]; [1; 1]]%Z)
           (magnitude_zero (F:=float128_t))).
  by repeat constructor.
Defined.

(** ** A column without a usable entry *)

Lemma Rlt_not_Rge (x y : Real) : Rlt x y = true -> Rge x y = false.
Proof.
  unfold Rlt, Rge, SFltb, SFleb.
  destruct x as [sx|sx| |sx mx ex], y as [sy|sy| |sy my ey]; simpl;
    try done; try (by destruct sx); try (by destruct sy);
    try (by destruct sx, sy).
  destruct sx, sy; try done.
  - rewrite (Z.compare_antisym ex ey).
    destruct (ex ?= ey)%Z; simpl; try done.
    pose proof (Pos.compare_cont_antisym mx my Eq) as Hanti.
    simpl in Hanti. rewrite <- Hanti.
    by destruct (Pos.compare_cont Eq mx my).
  - rewrite (Z.compare_antisym ex ey).
    destruct (ex ?= ey)%Z; simpl; try done.
    pose proof (Pos.compare_cont_antisym mx my Eq) as Hanti.
    simpl in Hanti. rewrite <- Hanti.
    by destruct (Pos.compare_cont Eq mx my).
Qed.

Lemma forallb_false_at {A} (f : A -> bool) (l : list A) x :
  In x l -> f x = false -> forallb f l = false.
Proof.
  intros Hin Hx. destruct (forallb f l) eqn:Hall; [|done].
  rewrite forallb_forall in Hall. specialize (Hall x Hin). congruence.
Qed.

Lemma filter_none {A} (f : A -> bool) (l : list A) :
  (forall x, In x l -> f x = false) -> List.filter f l = [].
Proof.
  induction l as [|x l IH]; simpl; [done|]. intros Hl.
  rewrite (Hl x) by (by left). apply IH. intros; apply Hl. by right.
Qed.

(** X11: when every entry of some column has a magnitude below epsilon,
    [Solve] returns the empty sequence whatever the right-hand side: the
    diagonal test fails on that column and the pivot selection finds no
    candidate row for it. *)
Theorem column_below_epsilon_gives_empty {F : RealFormat}
  (fuel : nat) (m : Matrix) (equal : list Real) (epsilon : Real) (c : nat) :
  Matrix_wf m -> is_valid m = true -> length equal = n_rows m ->
  c < n_columns m ->
  (forall r, r < n_rows m -> Rlt (Rabs (entry m r c)) epsilon = true) ->
  Solve fuel m equal epsilon = Ok [].
Proof.
  intros Hwf Hv Hlen Hc Hbelow.
  pose proof (is_valid_dimensions m Hv) as Hdim.
  unfold Solve, prepare. rewrite Hv. simpl. rewrite Hlen, Nat.eqb_refl. simpl.
  rewrite (is_diagonal_nonzero_result m epsilon Hwf), Hv. simpl.
  rewrite (forallb_false_at _ _ c).
  2:{ apply in_seq. lia. }
  2:{ by rewrite Hbelow by lia. }
  simpl. unfold select_pivots.
  rewrite (collect_nze_result m epsilon Hwf).
  rewrite (forallb_false_at _ _ c); [done|apply in_seq; lia|].
  unfold candidates. rewrite filter_none; [done|].
  intros r Hr%in_seq. apply Rlt_not_Rge, Hbelow. lia.
Qed.

Lemma column_below_epsilon_gives_empty_witness :
  Solve (F:=float128_t) 0 (matrix_of (F:=float128_t) [[1; 0]; [1; 0]]%Z)
    (reals_of (F:=float128_t) [1; 2]%Z) (magnitude_zero (F:=float128_t))
  = Ok [].
Proof.
  apply (column_below_epsilon_gives_empty (F:=float128_t) 0
           (matrix_of (F:=float128_t) [[1; 0]; [1; 0]]%Z)
           (reals_of (F:=float128_t) [1; 2]%Z)
           (magnitude_zero (F:=float128_t)) 1);
    [by repeat constructor | reflexivity | reflexivity | simpl; lia |].
  intros [|[|r]] Hr; [reflexivity | reflexivity | simpl in Hr; lia].
Defined.

(** ** The distinct-rows test *)

(** A loop whose rounds all complete, with an invariant that knows the
    round. *)
Lemma for_range_indexed {R St} (P : nat -> St -> Prop) n
  (body : nat -> St -> exec R St) s :
  P 0 s ->
  (forall i s, i < n -> P i s -> exists s', body i s = Next s' /\ P (S i) s') ->
  exists s', for_range n body s = Next s' /\ P n s'.
Proof.
  intros H0 Hstep. induction n as [|n IH]; [by exists s|].
  destruct IH as (s1 & Hrun & H1); [intros; apply Hstep; [lia|done]|].
  rewrite for_range_S, Hrun. simpl. apply Hstep; [lia|done].
Qed.

Lemma fold_count (p : nat -> bool) (l : list nat) a :
  fold_left (fun n i => if p i then S n else n) l a =
  a + length (List.filter p l).
Proof.
  revert a; induction l as [|i l IH]; intros a; simpl; [lia|].
  rewrite IH. destruct (p i); simpl; lia.
Qed.

Lemma filter_length_all (p : nat -> bool) (l : list nat) :
  length (List.filter p l) = length l <-> forall x, In x l -> p x = true.
Proof.
  induction l as [|i l IH]; simpl; [by split|].
  pose proof (List.filter_length_le p l) as Hle.
  destruct (p i) eqn:Hi; simpl.
  - split.
    + intros Hlen x [<-|Hx]; [done|]. apply IH; [lia|done].
    + intros Hall. f_equal. apply IH. intros; apply Hall. by right.
  - split; [lia|]. intros Hall. specialize (Hall i (or_introl eq_refl)).
    congruence.
Qed.

(** Lines 241-245: the marks after the first loop. *)
Lemma mark_used (list_index : list nat) rows :
  rows <= length list_index ->
  (forall i k, i < rows -> list_index !! i = Some k -> k < rows) ->
  exists row_used,
    for_range (R:=list Real) rows
      (fun i row_used =>
         let* k := vget list_index i in
         vset row_used k true) (replicate rows false) = Next row_used /\
    length row_used = rows /\
    forall r, r < rows ->
      row_used !! r = Some (bool_decide (r ∈ take rows list_index)).
Proof.
  intros Hlen Hbound.
  destruct (for_range_indexed (R:=list Real)
              (fun i (row_used : list bool) =>
                 length row_used = rows /\
                 forall r, r < rows ->
                   row_used !! r = Some (bool_decide (r ∈ take i list_index)))
              rows
              (fun i row_used =>
                 let* k := vget list_index i in
                 vset row_used k true) (replicate rows false))
    as (row_used & Hrun & Hlen' & Hmarks).
  - split; [by rewrite length_replicate|].
    intros r Hr. rewrite lookup_replicate_2 by done.
    rewrite bool_decide_eq_false_2; [done|]. simpl. apply not_elem_of_nil.
  - intros i s Hi [Hs Hmarks].
    destruct (lookup_lt_is_Some_2 list_index i) as [k Hk]; [lia|].
    pose proof (Hbound i k Hi Hk) as Hkr.
    rewrite (vget_Next _ _ _ Hk). simpl. rewrite vset_Next by lia.
    eexists; split; [done|]. split; [by rewrite length_insert|].
    intros r Hr. rewrite (take_S_r _ _ _ Hk).
    destruct (decide (r = k)) as [->|Hne].
    + rewrite list_lookup_insert_eq by lia.
      rewrite bool_decide_eq_true_2; [done|].
      apply elem_of_app. right. by apply list_elem_of_singleton.
    + rewrite list_lookup_insert_ne by done. rewrite Hmarks by done.
      f_equal. apply bool_decide_ext. rewrite elem_of_app.
      rewrite list_elem_of_singleton.
      split; [by left|by intros [?|?]].
  - by exists row_used.
Qed.

Lemma count_used_result (list_index : list nat) rows :
  rows <= length list_index ->
  (forall i k, i < rows -> list_index !! i = Some k -> k < rows) ->
  count_used list_index rows =
  Next (length (List.filter
                  (fun r => bool_decide (r ∈ take rows list_index))
                  (seq 0 rows))).
Proof.
  intros Hlen Hbound. unfold count_used.
  destruct (mark_used list_index rows Hlen Hbound)
    as (row_used & -> & Hlen' & Hmarks). simpl.
  unfold for_range.
  rewrite (for_each_fold _ _
             (fun n r =>
                if bool_decide (r ∈ take rows list_index) then S n else n)).
  - by rewrite fold_count.
  - intros r n Hr%elem_of_seq.
    by rewrite (vget_Next _ _ _ (Hmarks r ltac:(lia))).
Qed.

(** X12: when the counters are below the row count, the distinct-rows test
    never indexes out of range, and the number it compares with the column
    count is the number of row indices that occur among the first [rows]
    counters: the counter values are counted, not the candidate rows they
    stand for.  It reaches the row count exactly when every row index occurs
    among these counters. *)
Theorem count_used_counts_counter_values (list_index : list nat) (rows : nat) :
  rows <= length list_index ->
  (forall i k, i < rows -> list_index !! i = Some k -> k < rows) ->
  exists n_used,
    count_used list_index rows = Next n_used /\
    n_used = length (List.filter
                       (fun r => bool_decide (r ∈ take rows list_index))
                       (seq 0 rows)) /\
    (n_used = rows <-> forall r, r < rows -> r ∈ take rows list_index).
Proof.
  intros Hlen Hbound. eexists. split; [by apply count_used_result|].
  split; [done|].
  pose proof (filter_length_all
                (fun r => bool_decide (r ∈ take rows list_index))
                (seq 0 rows)) as Hall.
  rewrite length_seq in Hall. rewrite Hall.
  split.
  - intros Hin r Hr. specialize (Hin r). rewrite in_seq in Hin.
    apply bool_decide_eq_true in Hin; [done|lia].
  - intros Hin r Hr%in_seq. apply bool_decide_eq_true, Hin. lia.
Qed.

Lemma count_used_counts_counter_values_witness :
  exists n_used,
    count_used [1; 0; 1] 3 = Next n_used /\
    n_used = length (List.filter
                       (fun r => bool_decide (r ∈ take 3 [1; 0; 1]))
                       (seq 0 3)) /\
    (n_used = 3 <-> forall r, r < 3 -> r ∈ take 3 [1; 0; 1]).
Proof.
  apply (count_used_counts_counter_values [1; 0; 1] 3); [simpl; lia|].
  intros [|[|[|i]]] k Hi [= <-]; lia.
Defined.

(** ** The odometer *)

Lemma odometer_value_insert sizes list_index i k x :
  i < length sizes -> list_index !! i = Some k ->
  odometer_value sizes (<[i:=x]> list_index) + k * weight sizes i =
  odometer_value sizes list_index + x * weight sizes i.
Proof.
  revert list_index i.
  induction sizes as [|s sizes IH]; intros [|d ds] [|i] Hi Hk;
    simpl in *; try done; try lia.
  - injection Hk as ->. lia.
  - specialize (IH ds i ltac:(lia) Hk). nia.
Qed.

Lemma weight_S sizes i s :
  sizes !! i = Some s -> weight sizes (S i) = weight sizes i * s.
Proof.
  revert i; induction sizes as [|s' sizes IH]; intros [|i] Hs;
    simpl in *; try done.
  - injection Hs as ->. destruct sizes; lia.
  - rewrite (IH i Hs). lia.
Qed.

Lemma odometer_value_bound sizes list_index :
  Forall2 (fun s k => k < s) sizes list_index ->
  odometer_value sizes list_index < weight sizes (length sizes).
Proof.
  induction 1 as [|s k sizes list_index Hk _ IH]; simpl; [lia|]. nia.
Qed.

Lemma in_range_lookup nze_list list_index :
  in_range nze_list list_index <->
  length list_index = length nze_list /\
  forall i l k, nze_list !! i = Some l -> list_index !! i = Some k ->
                k < length l.
Proof.
  unfold in_range. rewrite Forall2_same_length_lookup, length_map.
  split; intros [Hlen Hall]; (split; [done|]).
  - intros i l k Hl Hk. apply (Hall i (length l) k); [|done].
    by rewrite list_lookup_fmap, Hl.
  - intros i s k Hs Hk. rewrite list_lookup_fmap in Hs.
    destruct (nze_list !! i) as [l|] eqn:Hl; [|done].
    injection Hs as <-. by apply (Hall i l k).
Qed.

(** Lines 257-267 on counters in range: the odometer either reports that
    the last assignment has been passed or moves to the next one. *)
Lemma advance_step (nze_list : list (list nat)) (list_index : list nat) :
  0 < length nze_list -> in_range nze_list list_index ->
  (advance nze_list list_index (length nze_list) = Return [] /\
   odometer_value (map length nze_list) list_index + 1 =
   weight (map length nze_list) (length nze_list)) \/
  (exists list_index',
     advance nze_list list_index (length nze_list) = Next list_index' /\
     in_range nze_list list_index' /\
     odometer_value (map length nze_list) list_index' =
     odometer_value (map length nze_list) list_index + 1).
Proof.
  intros Hpos Hin.
  set (sizes := map length nze_list). set (n := length nze_list).
  pose proof Hin as [Hlen Hidx]%in_range_lookup. fold n in Hlen.
  pose proof (odometer_value_bound _ _ Hin) as Hbound.
  rewrite length_map in Hbound. fold sizes n in Hbound.
  assert (Hsizes : forall i lst, nze_list !! i = Some lst ->
                                 sizes !! i = Some (length lst)).
  { intros i lst Hl. unfold sizes. by rewrite list_lookup_fmap, Hl. }
  assert (Hsl : length sizes = n) by apply length_map.
  destruct (lookup_lt_is_Some_2 list_index 0) as [k0 Hk0]; [lia|].
  destruct (lookup_lt_is_Some_2 nze_list 0) as [lst0 Hl0]; [lia|].
  unfold advance. rewrite (vget_Next _ _ _ Hk0). simpl.
  rewrite vset_Next by lia. simpl.
  destruct (for_range_indexed (R:=list Real)
    (fun i (l : list nat) =>
       length l = n /\
       (forall j lst k, j <> i -> nze_list !! j = Some lst ->
                        l !! j = Some k -> k < length lst) /\
       (forall lst k, nze_list !! i = Some lst -> l !! i = Some k ->
                      k <= length lst) /\
       odometer_value sizes l = odometer_value sizes list_index + 1)
    (n - 1)
    (fun i list_index =>
       let* k := vget list_index i in
       let* l := vget nze_list i in
       if length l <=? k
       then
         let* list_index := vset list_index i 0 in
         let* k' := vget list_index (i + 1) in
         vset list_index (i + 1) (S k')
       else Next list_index)
    (<[0:=S k0]> list_index)) as (l & Hrun & Hl & Hother & Hlast & Hvalue).
  - split; [by rewrite length_insert|]. split; [|split].
    + intros j lst k Hj Hlst. rewrite list_lookup_insert_ne by done.
      by apply Hidx.
    + intros lst k Hlst. rewrite list_lookup_insert_eq by lia.
      intros [= <-]. by apply (Hidx 0 lst k0).
    + pose proof (odometer_value_insert sizes list_index 0 k0 (S k0)
                    ltac:(lia) Hk0) as Hv. simpl in Hv. lia.
  - intros i l Hi (Hl & Hother & Hlast & Hvalue).
    replace (i + 1) with (S i) by lia.
    destruct (lookup_lt_is_Some_2 l i) as [k Hk]; [lia|].
    destruct (lookup_lt_is_Some_2 nze_list i) as [lst Hlst]; [lia|].
    destruct (lookup_lt_is_Some_2 l (S i)) as [k' Hk']; [lia|].
    destruct (lookup_lt_is_Some_2 nze_list (S i)) as [lst' Hlst']; [lia|].
    destruct (lookup_lt_is_Some_2 list_index i) as [ki Hki]; [lia|].
    pose proof (Hidx i lst ki Hlst Hki) as Hnonempty.
    rewrite (vget_Next _ _ _ Hk). simpl. rewrite (vget_Next _ _ _ Hlst). simpl.
    destruct (Nat.leb_spec (length lst) k) as [Hfull|Hroom].
    + pose proof (Hlast lst k Hlst Hk) as Hle.
      rewrite vset_Next by lia. simpl.
      rewrite (vget_Next _ _ k')
        by (by rewrite list_lookup_insert_ne by lia).
      simpl. rewrite vset_Next by (rewrite length_insert; lia).
      eexists; split; [done|].
      split; [by rewrite !length_insert|]. split; [|split].
      * intros j lstj kj Hj Hlstj. rewrite list_lookup_insert_ne by done.
        destruct (decide (j = i)) as [->|Hji].
        -- rewrite list_lookup_insert_eq by lia. intros [= <-].
           rewrite Hlst in Hlstj. injection Hlstj as <-. lia.
        -- rewrite list_lookup_insert_ne by done. by apply Hother.
      * intros lstj kj Hlstj.
        rewrite list_lookup_insert_eq by (rewrite length_insert; lia).
        intros [= <-]. rewrite Hlst' in Hlstj. injection Hlstj as <-.
        pose proof (Hother (S i) lst' k' ltac:(lia) Hlst' Hk'). lia.
      * pose proof (odometer_value_insert sizes l i k 0 ltac:(lia) Hk) as Hv1.
        pose proof (odometer_value_insert sizes (<[i:=0]> l) (S i) k' (S k')
                      ltac:(lia)) as Hv2.
        rewrite list_lookup_insert_ne in Hv2 by lia. specialize (Hv2 Hk').
        pose proof (weight_S sizes i (length lst) (Hsizes i lst Hlst)) as Hw.
        nia.
    + eexists; split; [done|]. split; [done|]. split; [|split; [|done]].
      * intros j lstj kj Hj Hlstj Hkj.
        destruct (decide (j = i)) as [->|Hji].
        -- rewrite Hlst in Hlstj. injection Hlstj as <-.
           rewrite Hk in Hkj. injection Hkj as <-. lia.
        -- by apply (Hother j).
      * intros lstj kj Hlstj Hkj.
        pose proof (Hother (S i) lstj kj ltac:(lia) Hlstj Hkj). lia.
  - rewrite Hrun. simpl.
    destruct (lookup_lt_is_Some_2 l (n - 1)) as [k Hk]; [lia|].
    destruct (lookup_lt_is_Some_2 nze_list (n - 1)) as [lst Hlst]; [lia|].
    rewrite (vget_Next _ _ _ Hk). simpl. rewrite (vget_Next _ _ _ Hlst). simpl.
    destruct (Nat.leb_spec (length lst) k) as [Hfull|Hroom].
    + left. split; [done|].
      pose proof (Hlast lst k Hlst Hk) as Hle.
      pose proof (odometer_value_insert sizes l (n - 1) k 0 ltac:(lia) Hk)
        as Hv.
      pose proof (weight_S sizes (n - 1) (length lst)
                    (Hsizes _ lst Hlst)) as Hw.
      replace (S (n - 1)) with n in Hw by lia. nia.
    + right. exists l. split; [done|]. split; [|done].
      apply in_range_lookup. split; [done|].
      intros i lsti ki Hlsti Hki.
      destruct (decide (i = n - 1)) as [->|Hne].
      * rewrite Hlst in Hlsti. injection Hlsti as <-.
        rewrite Hk in Hki. injection Hki as <-. lia.
      * by apply (Hother i).
Qed.

(** X13: on counters in range the odometer step never indexes out of range.
    Either it moves to counters that are again in range and spell the next
    number in the mixed-radix system of the candidate counts, or the counters
    spelt the last number and the step leaves [Solve] with the empty
    solution. *)
Theorem advance_is_an_odometer
  (nze_list : list (list nat)) (list_index : list nat) :
  0 < length nze_list -> in_range nze_list list_index ->
  (advance nze_list list_index (length nze_list) = Return [] /\
   odometer_value (map length nze_list) list_index + 1 =
   weight (map length nze_list) (length nze_list)) \/
  (exists list_index',
     advance nze_list list_index (length nze_list) = Next list_index' /\
     in_range nze_list list_index' /\
     odometer_value (map length nze_list) list_index' =
     odometer_value (map length nze_list) list_index + 1).
Proof.
  intros Hpos Hin.
  destruct (advance_step nze_list list_index Hpos Hin)
    as [[Hret Hlast] | (list_index' & Hnext & Hin' & Hvalue)].
  - left. by split.
  - right. exists list_index'. by repeat split.
Qed.

Lemma advance_is_an_odometer_witness :
  (advance [[1]; [0; 1]] [0; 0] 2 = Return [] /\
   odometer_value [1; 2] [0; 0] + 1 = weight [1; 2] 2) \/
  (exists list_index',
     advance [[1]; [0; 1]] [0; 0] 2 = Next list_index' /\
     in_range [[1]; [0; 1]] list_index' /\
     odometer_value [1; 2] list_index' = odometer_value [1; 2] [0; 0] + 1).
Proof.
  apply (advance_is_an_odometer [[1]; [0; 1]] [0; 0]);
    [simpl; lia | repeat constructor].
Defined.

Lemma weight_le_pow sizes b i :
  1 <= b -> Forall (fun s => s <= b) sizes -> weight sizes i <= b ^ i.
Proof.
  intros Hb Hall. revert i.
  induction Hall as [|s sizes Hs _ IH]; intros [|i]; simpl; try lia.
  - pose proof (Nat.pow_nonzero b i ltac:(lia)). nia.
  - specialize (IH i). nia.
Qed.

(** Lines 237-269 on a square system: with enough fuel the search ends,
    by giving up or with counters in range. *)
Lemma search_from (fuel : nat) (nze_list : list (list nat)) (n : nat)
  (list_index : list nat) :
  length nze_list = n -> 0 < n ->
  Forall (fun l => length l <= n) nze_list ->
  in_range nze_list list_index ->
  weight (map length nze_list) n <=
  fuel + odometer_value (map length nze_list) list_index ->
  while_true fuel
    (fun list_index =>
       let* n_used := count_used list_index n in
       if n_used =? n then Next (inr list_index)
       else
         let* list_index := advance nze_list list_index n in
         Next (inl list_index)) list_index = Return [] \/
  exists list_index',
    while_true fuel
      (fun list_index =>
         let* n_used := count_used list_index n in
         if n_used =? n then Next (inr list_index)
         else
           let* list_index := advance nze_list list_index n in
           Next (inl list_index)) list_index = Next list_index' /\
    in_range nze_list list_index'.
Proof.
  intros Hn Hpos Hsmall. revert list_index.
  induction fuel as [|fuel IH]; intros list_index Hin Hfuel.
  - pose proof (odometer_value_bound _ _ Hin) as Hbound.
    rewrite length_map, Hn in Hbound. lia.
  - pose proof Hin as [Hlen Hidx]%in_range_lookup.
    simpl. rewrite count_used_result; [|lia|].
    2:{ intros i k Hi Hk.
        destruct (lookup_lt_is_Some_2 nze_list i) as [l Hl]; [lia|].
        pose proof (Hidx i l k Hl Hk).
        pose proof (Forall_lookup_1 _ _ _ _ Hsmall Hl). simpl in *. lia. }
    simpl. destruct (_ =? n); simpl; [right; by exists list_index|].
    destruct (advance_step nze_list list_index ltac:(lia) Hin)
      as [[Hret _]|(list_index' & Hnext & Hin' & Hvalue)];
      rewrite Hn in *.
    + rewrite Hret. by left.
    + rewrite Hnext. simpl. apply IH; [done|lia].
Qed.

(** ** The reduced system *)

Lemma rows_equal (m m' : Matrix) n i i' :
  Matrix_wf m -> Matrix_wf m' ->
  n_columns m = n -> n_columns m' = n ->
  i < n_rows m -> i' < n_rows m' ->
  (forall j, j < n -> entry m i j = entry m' i' j) ->
  cell m !! i = cell m' !! i'.
Proof.
  intros [Hr Hc] [Hr' Hc'] Hn Hn' Hi Hi' Hentries.
  destruct (lookup_lt_is_Some_2 (cell m) i) as [line Hline]; [lia|].
  destruct (lookup_lt_is_Some_2 (cell m') i') as [line' Hline']; [lia|].
  pose proof (Forall_lookup_1 _ _ _ _ Hc Hline) as Hw.
  pose proof (Forall_lookup_1 _ _ _ _ Hc' Hline') as Hw'.
  simpl in Hw, Hw'. rewrite Hline, Hline'. f_equal.
  apply (list_eq_same_length _ _ n); [lia..|].
  intros j x y Hj Hx Hy. specialize (Hentries j Hj). unfold entry in Hentries.
  rewrite (nth_lookup_Some _ _ _ _ Hline), (nth_lookup_Some _ _ _ _ Hline'),
    (nth_lookup_Some _ _ _ _ Hx), (nth_lookup_Some _ _ _ _ Hy) in Hentries.
  done.
Qed.

(** Lines 278-279: the copy of one row. *)
Lemma copy_row (m new_matrix : Matrix) n row index :
  Matrix_wf m -> n_columns m = n -> index < n_rows m ->
  Matrix_wf new_matrix -> n_columns new_matrix = n ->
  row < n_rows new_matrix ->
  exists new_matrix',
    for_range (R:=list Real) n
      (fun column new_matrix =>
         let* x := load m (Matrix_ref m index column) in
         store new_matrix (Matrix_ref new_matrix row column) x) new_matrix
    = Next new_matrix' /\
    Matrix_wf new_matrix' /\
    n_rows new_matrix' = n_rows new_matrix /\
    n_columns new_matrix' = n /\
    dummy new_matrix' = dummy new_matrix /\
    (forall r, r <> row -> cell new_matrix' !! r = cell new_matrix !! r) /\
    cell new_matrix' !! row = cell m !! index.
Proof.
  intros Hwf Hn Hindex Hwf0 Hn0 Hrow.
  destruct (for_range_indexed (R:=list Real)
    (fun k (nm : Matrix) =>
       Matrix_wf nm /\ n_rows nm = n_rows new_matrix /\ n_columns nm = n /\
       dummy nm = dummy new_matrix /\
       (forall r, r <> row -> cell nm !! r = cell new_matrix !! r) /\
       (forall j, j < k -> entry nm row j = entry m index j))
    n
    (fun column new_matrix =>
       let* x := load m (Matrix_ref m index column) in
       store new_matrix (Matrix_ref new_matrix row column) x) new_matrix)
    as (nm & Hrun & Hwf' & Hr' & Hc' & Hd' & Hother & Hcopied).
  - do 5 (split; [done|]). intros; lia.
  - intros k nm Hk (Hwfk & Hrk & Hck & Hdk & Hotherk & Hcopiedk).
    rewrite (load_in_bounds (R:=list Real)) by (done || lia). simpl.
    rewrite (store_in_bounds (R:=list Real)) by (done || lia).
    eexists; split; [done|].
    split; [apply poke_wf; [done|lia]|]. do 3 (split; [done|]). split.
    + intros r Hne. simpl. rewrite list_lookup_insert_ne by done.
      by apply Hotherk.
    + intros j Hj. destruct (decide (j = k)) as [->|Hjk].
      * apply entry_poke_eq; (done || lia).
      * rewrite entry_poke_ne by congruence. apply Hcopiedk. lia.
  - exists nm. do 6 (split; [done|]).
    apply (rows_equal nm m n); (done || lia).
Qed.

Lemma reduce_result {F : RealFormat} (m : Matrix) (equal : list Real)
  (list_index : list nat) :
  Matrix_wf m -> length equal = n_rows m ->
  n_columns m <= length list_index ->
  (forall r index, r < n_columns m -> list_index !! r = Some index ->
                   index < n_rows m) ->
  exists new_matrix new_equal,
    reduce m equal list_index (n_columns m) = Next (new_matrix, new_equal) /\
    Matrix_wf new_matrix /\
    size new_matrix = (n_columns m, n_columns m) /\
    length new_equal = n_columns m /\
    forall r index, r < n_columns m -> list_index !! r = Some index ->
      cell new_matrix !! r = cell m !! index /\
      new_equal !! r = equal !! index.
Proof.
  intros Hwf Hequal Hlen Hbound. set (n := n_columns m).
  destruct (for_range_indexed (R:=list Real)
    (fun r (st : system) =>
       Matrix_wf st.1 /\ n_rows st.1 = n /\ n_columns st.1 = n /\
       length st.2 = n /\
       forall r' index, r' < r -> list_index !! r' = Some index ->
         cell st.1 !! r' = cell m !! index /\ st.2 !! r' = equal !! index)
    n
    (fun row '(new_matrix, new_equal) =>
       let* index := vget list_index row in
       let* e := vget equal index in
       let* new_equal := vset new_equal row e in
       let* new_matrix :=
         for_range n
           (fun column new_matrix =>
              let* x := load m (Matrix_ref m index column) in
              store new_matrix (Matrix_ref new_matrix row column) x)
           new_matrix in
       Next (new_matrix, new_equal))
    (Matrix_init n n, replicate n (Real_of_Z 0)))
    as ([nm ne] & Hrun & Hwf' & Hr' & Hc' & Hl' & Hrows).
  - simpl. split; [apply Matrix_init_wf|].
    unfold Matrix_init. rewrite Nat.ltb_irrefl. simpl.
    rewrite length_replicate. do 3 (split; [done|]). intros; lia.
  - intros r [nm ne] Hr (Hwfr & Hrr & Hcr & Hlr & Hrowsr). simpl in *.
    destruct (lookup_lt_is_Some_2 list_index r) as [index Hindex];
      [unfold n in Hr; lia|].
    pose proof (Hbound r index Hr Hindex) as Hin.
    destruct (lookup_lt_is_Some_2 equal index) as [e He]; [lia|].
    rewrite (vget_Next _ _ _ Hindex). simpl.
    rewrite (vget_Next _ _ _ He). simpl.
    rewrite vset_Next by lia. simpl.
    destruct (copy_row m nm n r index) as
      (nm' & -> & Hwf' & Hr' & Hc' & _ & Hother & Hcopied);
      try done; [lia|].
    simpl. eexists; split; [done|]. simpl.
    split; [done|]. split; [lia|]. split; [done|].
    split; [by rewrite length_insert|].
    intros r' index' Hr'lt Hindex'.
    destruct (decide (r' = r)) as [->|Hne].
    + rewrite Hindex in Hindex'. injection Hindex' as <-.
      split; [done|]. rewrite list_lookup_insert_eq by lia. done.
    + rewrite Hother by done. rewrite list_lookup_insert_ne by done.
      apply Hrowsr; [lia|done].
  - exists nm, ne. simpl in *. split; [exact Hrun|].
    split; [done|]. split; [unfold size; by rewrite Hr', Hc'|].
    split; [done|]. intros r index Hr Hindex. by apply Hrows.
Qed.

(** X14: given counters that are row numbers of a matrix satisfying the
    class invariant, the construction of the reduced system never indexes
    out of range and yields a square system with one equation per column:
    equation [r] is the original equation whose row number is the counter
    [list_index[r]] itself. *)
Theorem reduce_copies_counter_rows {F : RealFormat}
  (m : Matrix) (equal : list Real) (list_index : list nat) :
  Matrix_wf m -> length equal = n_rows m ->
  n_columns m <= length list_index ->
  (forall r index, r < n_columns m -> list_index !! r = Some index ->
                   index < n_rows m) ->
  exists new_matrix new_equal,
    reduce m equal list_index (n_columns m) = Next (new_matrix, new_equal) /\
    Matrix_wf new_matrix /\
    size new_matrix = (n_columns m, n_columns m) /\
    length new_equal = n_columns m /\
    forall r index, r < n_columns m -> list_index !! r = Some index ->
      cell new_matrix !! r = cell m !! index /\
      new_equal !! r = equal !! index.
Proof.
  intros Hwf Hequal Hlen Hbound.
  destruct (reduce_result m equal list_index Hwf Hequal Hlen Hbound)
    as (new_matrix & new_equal & Hrun & Hwf' & Hsize & Hlen' & Hrows).
  exists new_matrix, new_equal. do 4 (split; [done|]). exact Hrows.
Qed.

Lemma reduce_copies_counter_rows_witness :
  exists new_matrix new_equal,
    reduce (F:=float128_t) (matrix_of (F:=float128_t) [[0; 1]; [1; 1]]%Z)
      (reals_of (F:=float128_t) [7; 2]%Z) [1; 0] 2
    = Next (new_matrix, new_equal) /\
    cell new_matrix !! 0
    = cell (matrix_of (F:=float128_t) [[0; 1]; [1; 1]]%Z) !! 1 /\
    new_equal !! 0 = reals_of (F:=float128_t) [7; 2]%Z !! 1.
Proof.
  destruct (reduce_copies_counter_rows (F:=float128_t)
              (matrix_of (F:=float128_t) [[0; 1]; [1; 1]]%Z)
              (reals_of (F:=float128_t) [7; 2]%Z) [1; 0])
    as (nm & ne & Hrun & _ & _ & _ & Hrows);
    [by repeat constructor | reflexivity | simpl; lia | |].
  - intros [|[|r]] index Hr [= <-]; simpl in *; lia.
  - exists nm, ne. split; [exact Hrun|].
    apply (Hrows 0 1); [simpl; lia | reflexivity].
Defined.

(** ** Square systems *)

Lemma same_leading_system_refl n (m : Matrix) (equal : list Real) :
  Matrix_wf m -> n_columns m = n -> n <= n_rows m -> n <= length equal ->
  same_leading_system n (m, equal) (m, equal).
Proof.
  intros Hwf Hc Hr Hl.
  split; [by do 6 (split; [done|])|by do 2 (split; [done|])].
Qed.

Lemma eliminate_normalize_total {F : RealFormat} n st :
  same_leading_system n st st ->
  exists v, run (let* st' := eliminate n st in normalize n st') = Ok v.
Proof.
  intros Hst. pose proof (eliminate_same_leading _ _ _ Hst) as He.
  destruct (eliminate n st) as [st'|r| |]; simpl in He; try done;
    simpl; [|by eauto].
  pose proof (normalize_same_leading _ _ _ He) as Hn.
  destruct (normalize n st') as [v|r| |]; simpl in Hn; try done; simpl;
    by eauto.
Qed.

Lemma candidates_nonempty (m : Matrix) epsilon rows columns i l :
  forallb (fun c => negb (length (candidates m epsilon rows c) =? 0))
    (seq 0 columns) = true ->
  map (candidates m epsilon rows) (seq 0 columns) !! i = Some l ->
  0 < length l <= rows.
Proof.
  intros Hall Hl. rewrite list_lookup_fmap in Hl.
  destruct (seq 0 columns !! i) as [c|] eqn:Hc; [|done].
  injection Hl as <-. apply lookup_seq in Hc as [-> Hi].
  rewrite forallb_forall in Hall. specialize (Hall i).
  rewrite in_seq in Hall. specialize (Hall ltac:(lia)).
  pose proof (candidates_length m epsilon rows i).
  destruct (Nat.eqb_spec (length (candidates m epsilon rows i)) 0);
    simpl in *; [done|lia].
Qed.

(** Lines 220-283 on a square system. *)
Lemma select_pivots_square {F : RealFormat}
  (fuel : nat) (m : Matrix) (equal : list Real) (epsilon : Real) :
  Matrix_wf m -> is_valid m = true ->
  n_rows m = n_columns m -> length equal = n_rows m ->
  n_rows m ^ n_columns m <= fuel ->
  select_pivots fuel m equal epsilon (n_rows m) (n_columns m) = Return [] \/
  exists st,
    select_pivots fuel m equal epsilon (n_rows m) (n_columns m) = Next st /\
    same_leading_system (n_columns m) st st.
Proof.
  intros Hwf Hv Hsq Hlen Hfuel.
  pose proof (is_valid_dimensions m Hv) as Hdim.
  unfold select_pivots. rewrite (collect_nze_result m epsilon Hwf).
  destruct (forallb _ _) eqn:Hne; simpl; [|by left].
  set (nze_list := map (candidates m epsilon (n_rows m))
                     (seq 0 (n_columns m))).
  assert (Hn : length nze_list = n_columns m).
  { unfold nze_list. by rewrite length_map, length_seq. }
  assert (Hsmall : Forall (fun l => length l <= n_columns m) nze_list).
  { apply Forall_lookup_2. intros i l Hl.
    pose proof (candidates_nonempty _ _ _ _ _ _ Hne Hl). lia. }
  assert (Hzero : in_range nze_list (replicate (n_columns m) 0)).
  { apply in_range_lookup. split; [by rewrite length_replicate|].
    intros i l k Hl Hk. apply lookup_replicate in Hk as [-> _].
    pose proof (candidates_nonempty _ _ _ _ _ _ Hne Hl). lia. }
  unfold search. rewrite Hsq.
  destruct (search_from fuel nze_list (n_columns m)
              (replicate (n_columns m) 0) Hn ltac:(lia) Hsmall Hzero)
    as [-> | (list_index & -> & Hin)]; simpl; [|by left|].
  { pose proof (weight_le_pow (map length nze_list) (n_columns m)
                  (n_columns m) ltac:(lia)) as Hw.
    rewrite Hsq in Hfuel. etransitivity; [apply Hw|lia].
    apply Forall_fmap. eapply Forall_impl; [exact Hsmall|]. done. }
  pose proof Hin as [Hlen' Hidx]%in_range_lookup.
  destruct (reduce_result m equal list_index)
    as (nm & ne & -> & Hwf' & [= Hr' Hc'] & Hl' & _); try done; [lia| |].
  { intros r index Hr Hindex.
    destruct (lookup_lt_is_Some_2 nze_list r) as [l Hl]; [lia|].
    pose proof (Hidx r l index Hl Hindex).
    pose proof (Forall_lookup_1 _ _ _ _ Hsmall Hl). simpl in *. lia. }
  right. eexists. split; [done|].
  apply same_leading_system_refl; (done || lia).
Qed.

(** X15: on a square system whose matrix satisfies the class invariant,
    [Solve] never indexes out of range, and with fuel for n^n rounds of the
    search it never runs out of fuel: it returns the empty sequence or one
    finite value per column.  (With more rows than columns and an unusable
    diagonal the first round of the search already reads out of range.) *)
Theorem Solve_square_is_total {F : RealFormat}
  (fuel : nat) (m : Matrix) (equal : list Real) (epsilon : Real) :
  Matrix_wf m -> n_rows m = n_columns m ->
  n_rows m ^ n_columns m <= fuel ->
  exists v,
    Solve fuel m equal epsilon = Ok v /\
    (v = [] \/
     (length v = n_columns m /\ Forall (fun x => isfinite x = true) v)).
Proof.
  intros Hwf Hsq Hfuel.
  assert (Hrun : exists v, Solve fuel m equal epsilon = Ok v).
  { unfold Solve, prepare.
    destruct (is_valid m) eqn:Hv; simpl; [|by eauto].
    pose proof (is_valid_dimensions m Hv) as Hdim.
    destruct (Nat.eqb_spec (n_rows m) (length equal)) as [Hlen|];
      simpl; [|by eauto].
    rewrite (is_diagonal_nonzero_result m epsilon Hwf), Hv.
    simpl. destruct (forallb _ _); simpl.
    - apply eliminate_normalize_total.
      apply same_leading_system_refl; (done || lia).
    - destruct (select_pivots_square fuel m equal epsilon)
        as [-> | (st & -> & Hst)]; try done; simpl; [by eauto|].
      by apply eliminate_normalize_total. }
  destruct Hrun as [v Hrun]. exists v. split; [done|].
  by apply Solve_Ok_shape with fuel equal epsilon.
Qed.

Lemma Solve_square_is_total_witness :
  exists v,
    Solve (F:=float128_t) 4 (matrix_of (F:=float128_t) [[0; 1]; [1; 0]]%Z)
      (reals_of (F:=float128_t) [7; 2]%Z) (magnitude_zero (F:=float128_t))
    = Ok v /\
    (v = [] \/ (length v = 2 /\ Forall (fun x => isfinite x = true) v)).
Proof.
  apply (Solve_square_is_total (F:=float128_t) 4
           (matrix_of (F:=float128_t) [[0; 1]; [1; 0]]%Z)
           (reals_of (F:=float128_t) [7; 2]%Z)
           (magnitude_zero (F:=float128_t)));
    [by repeat constructor | reflexivity | simpl; lia].
Defined.

(** ** Systems with a usable diagonal *)

Lemma Solve_usable_diagonal_fuel {F : RealFormat}
  (fuel fuel' : nat) (m : Matrix) (equal : list Real) (epsilon : Real) :
  is_valid m = true -> length equal = n_rows m ->
  is_diagonal_nonzero m epsilon = Ok true ->
  Solve fuel' m equal epsilon = Solve fuel m equal epsilon.
Proof.
  intros Hv Hlen Hd.
  rewrite (Solve_prepared _ _ _ _ _
             (prepare_usable_diagonal fuel m equal epsilon Hv Hlen Hd)).
  by rewrite (Solve_prepared _ _ _ _ _
                (prepare_usable_diagonal fuel' m equal epsilon Hv Hlen Hd)).
Qed.

(** X16: when the diagonal test passes, [Solve] skips the pivot selection.
    On a matrix satisfying the class invariant it then never indexes out of
    range and never needs fuel, and only the first [columns] equations
    count: every valid system with the same number of columns and the same
    leading equations gets the same answer, whatever its further rows. *)
Theorem Solve_usable_diagonal {F : RealFormat}
  (fuel : nat) (m : Matrix) (equal : list Real) (epsilon : Real) :
  Matrix_wf m -> length equal = n_rows m ->
  is_diagonal_nonzero m epsilon = Ok true ->
  (exists v, Solve fuel m equal epsilon = Ok v) /\
  (forall fuel' m' equal',
     Matrix_wf m' -> is_valid m' = true -> n_columns m' = n_columns m ->
     length equal' = n_rows m' ->
     take (n_columns m) (cell m') = take (n_columns m) (cell m) ->
     take (n_columns m) equal' = take (n_columns m) equal ->
     Solve fuel' m' equal' epsilon = Solve fuel m equal epsilon).
Proof.
  intros Hwf Hlen Hd.
  assert (Hv : is_valid m = true).
  { rewrite (is_diagonal_nonzero_result m epsilon Hwf) in Hd.
    injection Hd as Hd. by apply andb_true_iff in Hd as [Hv _]. }
  pose proof (is_valid_dimensions m Hv) as Hdim.
  split.
  - destruct (Solve_same_leading fuel m m equal equal epsilon)
      as (_ & Hrun); try done.
    apply same_leading_system_refl; (done || lia).
  - intros fuel' m' equal' Hwf' Hv' Hc' Hlen' Hcells Hequal.
    pose proof (is_valid_dimensions m' Hv') as Hdim'.
    destruct (Solve_same_leading fuel' m m' equal equal' epsilon)
      as (-> & _); try done.
    + split; [|simpl; rewrite Hlen, Hlen'; repeat split; [lia|lia|done]].
      simpl. do 2 (split; [done|]). repeat split; [done|lia|lia|done].
    + by apply Solve_usable_diagonal_fuel.
Qed.

Lemma Solve_usable_diagonal_witness :
  exists v,
    Solve (F:=float128_t) 0 (matrix_of (F:=float128_t) [[2; 1]; [1; 3]; [0; 0]]%Z)
      (reals_of (F:=float128_t) [3; 5; 1]%Z) (magnitude_zero (F:=float128_t))
    = Ok v.
Proof.
  apply (Solve_usable_diagonal (F:=float128_t) 0
           (matrix_of (F:=float128_t) [[2; 1]; [1; 3]; [0; 0]]%Z)
           (reals_of (F:=float128_t) [3; 5; 1]%Z)
           (magnitude_zero (F:=float128_t)));
    [by repeat constructor | reflexivity..].
Defined.

(** ** Systems with one unknown *)

(** X17: for the system [a * x = b] with one equation, [Solve] returns the
    quotient [b / a] when the magnitude of [a] is not below epsilon and the
    quotient is finite, and the empty sequence otherwise; in particular a NaN
    coefficient passes the diagonal test and is rejected by the quotient. *)
Theorem Solve_one_equation {F : RealFormat}
  (fuel : nat) (a b d epsilon : Real) :
  Solve fuel {| n_rows := 1; n_columns := 1; cell := [[a]]; dummy := d |}
    [b] epsilon =
  Ok (if Rlt (Rabs a) epsilon then []
      else if isfinite (Rdiv b a) then [Rdiv b a] else []).
Proof.
  unfold Solve, prepare, is_diagonal_nonzero, is_valid, for_range.
  cbn -[Rlt Rabs Rdiv Rge select_pivots eliminate normalize].
  destruct (Rlt (Rabs a) epsilon) eqn:Hlt;
    cbn -[Rlt Rabs Rdiv Rge select_pivots eliminate normalize].
  - unfold select_pivots, collect_nze, for_range.
    cbn -[Rlt Rabs Rdiv Rge]. by rewrite (Rlt_not_Rge _ _ Hlt).
  - unfold eliminate, eliminate_column, eliminate_row, normalize,
      normalize_row, for_range.
    cbn -[Rlt Rabs Rdiv Rge]. by destruct (isfinite (Rdiv b a)).
Qed.

(** ** ErrorEstimate on the result of Solve *)

(** X18: whatever [Solve] returned for a matrix satisfying the class
    invariant, [ErrorEstimate] on that result never indexes out of range:
    it returns NaN or a nonnegative value, and NaN when [Solve] returned
    the empty sequence. *)
Theorem ErrorEstimate_of_Solve {F : RealFormat}
  (fuel : nat) (m : Matrix) (equal : list Real) (epsilon : Real)
  (v : list Real) :
  Matrix_wf m -> Solve fuel m equal epsilon = Ok v ->
  exists e,
    ErrorEstimate m equal v = Ok e /\
    (e = NaN \/ Rle (Real_of_Z 0) e = true) /\
    (v = [] -> e = NaN).
Proof.
  intros Hwf Hsolve.
  destruct (is_valid m) eqn:Hv.
  2:{ exists NaN. split; [apply ErrorEstimate_rejects; by left|].
      split; [by left|done]. }
  pose proof (is_valid_dimensions m Hv) as Hdim.
  destruct (Nat.eq_dec (length equal) (n_rows m)) as [Hlen|Hlen].
  2:{ exists NaN. split; [apply ErrorEstimate_rejects; right; by left|].
      split; [by left|done]. }
  destruct (Solve_Ok_shape _ _ _ _ _ Hsolve) as [-> | [Hshape _]].
  - exists NaN. split; [|split; [by left|done]].
    apply ErrorEstimate_rejects. right. right. simpl. lia.
  - exists (total_residual m equal v).
    split; [by apply ErrorEstimate_accepts|]. split.
    + apply sign_clear_nonnegative, sum_upto_sign_clear.
      intros i. apply Rabs_sign_clear.
    + intros ->. simpl in Hshape. lia.
Qed.

Lemma ErrorEstimate_of_Solve_witness :
  exists e,
    ErrorEstimate (F:=float128_t)
      (matrix_of (F:=float128_t) [[0; 1]; [1; 0]]%Z)
      (reals_of (F:=float128_t) [7; 2]%Z) [] = Ok e /\
    (e = NaN \/ Rle (Real_of_Z (F:=float128_t) 0) e = true) /\
    (@nil Real = [] -> e = NaN).
Proof.
  apply (ErrorEstimate_of_Solve (F:=float128_t) 1
           (matrix_of (F:=float128_t) [[0; 1]; [1; 0]]%Z)
           (reals_of (F:=float128_t) [7; 2]%Z)
           (magnitude_zero (F:=float128_t)) []);
    [by repeat constructor | reflexivity].
Defined.

(** ** The driver *)

Lemma set_column_in_range (m : Matrix) index (data : list Real) :
  Matrix_wf m -> 0 < n_rows m -> index < n_columns m ->
  length data = n_rows m ->
  Forall (fun x => isfinite x = true) data ->
  set_column m index data =
  Ok (with_cell m (zip_with (fun line x => <[index:=x]> line) (cell m) data)).
Proof.
  intros [Hrows Hcols] Hpos Hindex Hlen Hfin.
  rewrite set_column_accepted by done.
  rewrite <- Hrows in Hlen |- *. rewrite set_column_loop; [|lia|lia|].
  - simpl. rewrite drop_all, app_nil_r, firstn_all.
    by rewrite <- Hlen, firstn_all.
  - eapply Forall_impl; [exact Hcols|]. simpl. intros line ->. done.
Qed.

Lemma search_reads_past_list_index (fuel : nat) (nze_list : list (list nat))
  rows columns :
  columns < rows -> 0 < fuel -> search fuel nze_list rows columns = Fault.
Proof.
  intros Hlt Hfuel. destruct fuel as [|fuel]; [lia|].
  unfold search. simpl.
  by rewrite (count_used_reads_past_list_index _ _ Hlt).
Qed.

Lemma candidates_head (m : Matrix) epsilon rows c :
  0 < rows -> Rge (Rabs (entry m 0 c)) epsilon = true ->
  (length (candidates m epsilon rows c) =? 0) = false.
Proof.
  intros Hrows Hhead. destruct rows as [|rows]; [lia|].
  unfold candidates. simpl. by rewrite Hhead.
Qed.

(** X19: the matrix the driver builds has a zero at (3, 3), whatever the
    abscissas, as long as both columns of powers are finite.  So with the
    default epsilon the diagonal test fails, every column has row 0 as a
    candidate, and [Solve] on this system of 5 rows and 4 columns reads
    [list_index] out of range in the first round of the search. *)
Theorem driver_system_reads_out_of_range (F : RealFormat)
  (fuel : nat) (x1 x : Real) (equal : list Real) :
  supported F -> 0 < fuel -> length equal = 5 ->
  Forall (fun y => isfinite y = true) (powers_column x1) ->
  Forall (fun y => isfinite y = true) (powers_column x) ->
  exists m,
    driver_matrix x1 x = Ok m /\
    size m = (5, 4) /\
    Matrix_get m 3 3 = Ok (Real_of_Z 0) /\
    Solve fuel m equal magnitude_zero = Undefined.
Proof.
  intros HF Hfuel Hlen Hx1 Hx.
  assert (Hzero : Rlt (Rabs (Real_of_Z 0)) magnitude_zero = true)
    by (destruct HF as [-> | ->]; reflexivity).
  assert (Hone : Rge (Rabs (Real_of_Z 1)) magnitude_zero = true)
    by (destruct HF as [-> | ->]; reflexivity).
  assert (Htwo : Rge (Rabs (Real_of_Z 2)) magnitude_zero = true)
    by (destruct HF as [-> | ->]; reflexivity).
  assert (Hc0 : Forall (fun y => isfinite y = true)
                 (reals_of [2; 2; 2; 2; 2]%Z))
    by (destruct HF as [-> | ->]; by repeat constructor).
  assert (Hc3 : Forall (fun y => isfinite y = true)
                 (reals_of [1; 0; 0; 0; 0]%Z))
    by (destruct HF as [-> | ->]; by repeat constructor).
  unfold driver_matrix.
  rewrite set_column_in_range;
    [|by repeat constructor|simpl; lia|simpl; lia|reflexivity|done].
  cbn -[Real_of_Z Rmul magnitude_zero Solve Matrix_get powers_column].
  rewrite set_column_in_range;
    [|by repeat constructor|simpl; lia|simpl; lia|reflexivity|done].
  cbn -[Real_of_Z Rmul magnitude_zero Solve Matrix_get].
  rewrite set_column_in_range;
    [|by repeat constructor|simpl; lia|simpl; lia|reflexivity|done].
  cbn -[Real_of_Z Rmul magnitude_zero Solve Matrix_get powers_column].
  rewrite set_column_in_range;
    [|by repeat constructor|simpl; lia|simpl; lia|reflexivity|done].
  cbn -[Real_of_Z Rmul magnitude_zero Solve Matrix_get].
  eexists. split; [reflexivity|]. split; [reflexivity|].
  split; [reflexivity|].
  match goal with |- Solve _ ?m0 _ _ = _ => set (m := m0) end.
  assert (Hwf : Matrix_wf m) by (by repeat constructor).
  unfold Solve, prepare.
  change (is_valid m) with true. change (size m) with (5, 4).
  cbn [negb]. rewrite Hlen. cbn [Nat.eqb negb].
  rewrite (is_diagonal_nonzero_result m magnitude_zero Hwf).
  rewrite (forallb_false_at _ _ 3);
    [|apply in_seq; simpl; lia
     |change (entry m 3 3) with (Real_of_Z 0); by rewrite Hzero].
  rewrite andb_false_r. cbn [call bind negb].
  unfold select_pivots.
  change 5 with (n_rows m). change 4 with (n_columns m).
  rewrite (collect_nze_result m magnitude_zero Hwf).
  assert (forallb
            (fun c =>
               negb (length (candidates m magnitude_zero (n_rows m) c) =? 0))
            (seq 0 (n_columns m)) = true) as ->.
  { apply forallb_forall. intros c Hc%in_seq.
    rewrite candidates_head; [done|simpl; lia|].
    destruct c as [|[|[|[|c]]]]; [exact Htwo..|exact Hone|simpl in Hc; lia]. }
  cbn [bind].
  rewrite search_reads_past_list_index; [done|simpl; lia|done].
Qed.

Lemma driver_system_reads_out_of_range_witness :
  exists m,
    driver_matrix (F:=float128_t) (Real_of_Z (F:=float128_t) 1)
      (Real_of_Z (F:=float128_t) 0) = Ok m /\
    size m = (5, 4) /\
    Matrix_get m 3 3 = Ok (Real_of_Z (F:=float128_t) 0) /\
    Solve (F:=float128_t) 1 m (reals_of (F:=float128_t) [2; 1; 1; 1; 1]%Z)
      (magnitude_zero (F:=float128_t)) = Undefined.
Proof.
  apply (driver_system_reads_out_of_range float128_t 1
           (Real_of_Z (F:=float128_t) 1) (Real_of_Z (F:=float128_t) 0)
           (reals_of (F:=float128_t) [2; 1; 1; 1; 1]%Z));
    [by left | lia | reflexivity | by repeat constructor
    | by repeat constructor].
Defined.

(** ** The reduced system of a square system *)

Lemma count_used_full (list_index : list nat) rows :
  rows <= length list_index ->
  (forall i k, i < rows -> list_index !! i = Some k -> k < rows) ->
  count_used list_index rows = Next rows ->
  forall r, r < rows -> r ∈ take rows list_index.
Proof.
  intros Hlen Hbound. rewrite count_used_result by done.
  intros [= Hcount] r Hr.
  pose proof (filter_length_all
                (fun r => bool_decide (r ∈ take rows list_index))
                (seq 0 rows)) as Hall.
  rewrite length_seq in Hall. apply Hall with (x := r) in Hcount.
  - by apply bool_decide_eq_true in Hcount.
  - apply in_seq. lia.
Qed.

(** What the search of a square system hands over was accepted by the
    distinct-rows test. *)
Lemma search_from_accepted (fuel : nat) (nze_list : list (list nat)) (n : nat)
  (list_index list_index' : list nat) :
  length nze_list = n -> 0 < n ->
  Forall (fun l => length l <= n) nze_list ->
  in_range nze_list list_index ->
  while_true fuel
    (fun list_index =>
       let* n_used := count_used list_index n in
       if n_used =? n then Next (inr list_index)
       else
         let* list_index := advance nze_list list_index n in
         Next (inl list_index)) list_index = Next list_index' ->
  in_range nze_list list_index' /\
  forall r, r < n -> r ∈ list_index'.
Proof.
  intros Hn Hpos Hsmall. revert list_index.
  induction fuel as [|fuel IH]; intros list_index Hin; [done|].
  pose proof Hin as [Hlen Hidx]%in_range_lookup.
  assert (Hbound : forall i k, i < n -> list_index !! i = Some k -> k < n).
  { intros i k Hi Hk.
    destruct (lookup_lt_is_Some_2 nze_list i) as [l Hl]; [lia|].
    pose proof (Hidx i l k Hl Hk).
    pose proof (Forall_lookup_1 _ _ _ _ Hsmall Hl). simpl in *. lia. }
  simpl.
  pose proof (count_used_full list_index n ltac:(lia) Hbound) as Hfull.
  rewrite count_used_result in Hfull |- * by (done || lia).
  simpl. destruct (_ =? n) eqn:Heq; simpl.
  - intros [= <-]. split; [done|]. apply Nat.eqb_eq in Heq.
    intros r Hr. rewrite Heq in Hfull. specialize (Hfull eq_refl r Hr).
    by rewrite take_ge in Hfull by lia.
  - destruct (advance_step nze_list list_index ltac:(lia) Hin)
      as [[Hret _]|(li & Hnext & Hin' & _)]; rewrite Hn in *.
    + by rewrite Hret.
    + rewrite Hnext. simpl. by apply IH.
Qed.

Lemma counters_permutation (list_index : list nat) n :
  length list_index = n -> (forall r, r < n -> r ∈ list_index) ->
  list_index ≡ₚ seq 0 n.
Proof.
  intros Hlen Hall. symmetry. apply NoDup_Permutation_bis.
  - apply NoDup_ListNoDup, NoDup_seq.
  - rewrite length_seq. lia.
  - intros r Hr%in_seq. apply list_elem_of_In, Hall. lia.
Qed.

(** X20: on a square system, a pivot selection that succeeds hands the
    elimination a permutation of the original equations: every row of the
    matrix, paired with its right-hand side, occurs exactly once in the
    reduced system. *)
Theorem select_pivots_permutes_equations {F : RealFormat}
  (fuel : nat) (m : Matrix) (equal : list Real) (epsilon : Real)
  (new_matrix : Matrix) (new_equal : list Real) :
  Matrix_wf m -> is_valid m = true ->
  n_rows m = n_columns m -> length equal = n_rows m ->
  select_pivots fuel m equal epsilon (n_rows m) (n_columns m)
  = Next (new_matrix, new_equal) ->
  zip (cell new_matrix) new_equal ≡ₚ zip (cell m) equal.
Proof.
  intros Hwf Hv Hsq Hlen.
  pose proof (is_valid_dimensions m Hv) as Hdim.
  pose proof Hwf as [Hrows Hcols].
  unfold select_pivots. rewrite (collect_nze_result m epsilon Hwf).
  destruct (forallb _ _) eqn:Hne; simpl; [|done].
  set (nze_list := map (candidates m epsilon (n_rows m))
                     (seq 0 (n_columns m))).
  assert (Hn : length nze_list = n_columns m).
  { unfold nze_list. by rewrite length_map, length_seq. }
  assert (Hsmall : Forall (fun l => length l <= n_columns m) nze_list).
  { apply Forall_lookup_2. intros i l Hl.
    pose proof (candidates_nonempty _ _ _ _ _ _ Hne Hl). lia. }
  assert (Hzero : in_range nze_list (replicate (n_columns m) 0)).
  { apply in_range_lookup. split; [by rewrite length_replicate|].
    intros i l k Hl Hk. apply lookup_replicate in Hk as [-> _].
    pose proof (candidates_nonempty _ _ _ _ _ _ Hne Hl). lia. }
  unfold search. rewrite Hsq.
  destruct (while_true _ _ _) as [list_index| | |] eqn:Hsearch; simpl;
    try done.
  destruct (search_from_accepted _ _ _ _ _ Hn ltac:(lia) Hsmall Hzero Hsearch)
    as [Hin Hall].
  pose proof Hin as [Hlen' _]%in_range_lookup.
  assert (Hperm : list_index ≡ₚ seq 0 (n_columns m))
    by (apply counters_permutation; [lia|done]).
  assert (Hbound : forall r index, r < n_columns m ->
            list_index !! r = Some index -> index < n_rows m).
  { intros r index _ Hindex.
    assert (Hel : index ∈ seq 0 (n_columns m)).
    { rewrite <- Hperm. by apply list_elem_of_lookup_2 with r. }
    apply elem_of_seq in Hel. lia. }
  destruct (reduce_result m equal list_index Hwf Hlen ltac:(lia) Hbound)
    as (nm & ne & -> & [Hr' Hc'] & [= Hnr Hnc] & Hl' & Hcopy).
  intros [= <- <-].
  set (f := fun index : nat => (nth index (cell m) [], nth index equal NaN)).
  assert (H1 : zip (cell nm) ne = f <$> list_index).
  { apply list_eq. intros r. rewrite list_lookup_fmap.
    destruct (list_index !! r) as [index|] eqn:Hindex; simpl.
    - pose proof (lookup_lt_Some _ _ _ Hindex) as Hr.
      destruct (Hcopy r index ltac:(lia) Hindex) as [Hrow Heq].
      pose proof (Hbound r index ltac:(lia) Hindex) as Hi.
      destruct (lookup_lt_is_Some_2 (cell m) index) as [line Hline]; [lia|].
      destruct (lookup_lt_is_Some_2 equal index) as [e He]; [lia|].
      rewrite lookup_zip_with, Hrow, Hline. simpl. rewrite Heq, He. simpl.
      unfold f. by rewrite (nth_lookup_Some _ _ _ _ Hline),
        (nth_lookup_Some _ _ _ _ He).
    - apply lookup_ge_None in Hindex. apply lookup_ge_None.
      rewrite length_zip_with. lia. }
  assert (H2 : zip (cell m) equal = f <$> seq 0 (n_columns m)).
  { apply list_eq. intros r. rewrite list_lookup_fmap, lookup_zip_with.
    destruct (decide (r < n_columns m)) as [Hr|Hr].
    - destruct (lookup_lt_is_Some_2 (cell m) r) as [line Hline]; [lia|].
      destruct (lookup_lt_is_Some_2 equal r) as [e He]; [lia|].
      rewrite Hline, lookup_seq_lt by done. simpl. rewrite He. simpl.
      unfold f. by rewrite (nth_lookup_Some _ _ _ _ Hline),
        (nth_lookup_Some _ _ _ _ He).
    - rewrite lookup_seq_ge by lia.
      by rewrite (lookup_ge_None_2 (cell m)) by lia. }
  rewrite H1, H2. by rewrite Hperm.
Qed.

Lemma select_pivots_permutes_equations_witness :
  zip (cell (matrix_of (F:=float128_t) [[1; 1]; [1; 0]]%Z))
      (reals_of (F:=float128_t) [2; 7]%Z) ≡ₚ
  zip (cell (matrix_of (F:=float128_t) [[1; 0]; [1; 1]]%Z))
      (reals_of (F:=float128_t) [7; 2]%Z).
Proof.
  apply (select_pivots_permutes_equations (F:=float128_t) 2
           (matrix_of (F:=float128_t) [[1; 0]; [1; 1]]%Z)
           (reals_of (F:=float128_t) [7; 2]%Z)
           (magnitude_zero (F:=float128_t))
           (matrix_of (F:=float128_t) [[1; 1]; [1; 0]]%Z)
           (reals_of (F:=float128_t) [2; 7]%Z));
    [by repeat constructor | reflexivity..].
Defined.
